(** * A read-through block cache with pluggable eviction policies

    Shallow embedding of [src/cache/cache_infra.py], [src/cache/evictor_policies.py]
    and [src/cache/cache.py], followed by the properties of the store and of its
    eviction policies.

    Conventions of the embedding.
    - Python [int] is [Z]; [bytes] is [list byte]; a [dict] is an association
      list in insertion order (iteration order decides ties in every policy).
    - A Python [float] and a numpy [float64] are IEEE 754 binary64 numbers,
      [spec_float] with the operations the standard library specifies for
      them; numbers are compared by their values, which [pyfloat] holds.
    - [time.time()] reads a clock: the [n]-th call of a run returns [clock n].
    - What the code takes from its platform, the file system's largest seek
      offset and the C library's [pow], is a parameter of the world.
    - Exceptions are the [Raise] outcomes of the monad [M].
    - Objects that are shared by reference (the eviction policy instances) live
      in a heap addressed by [nat]; a [Cache] is passed and returned by value,
      which loses nothing because no method of [Cache] mutates [self] before a
      statement that can raise. *)

From Stdlib Require Import ZArith QArith List Bool Lia Arith.
From Stdlib Require Import SpecFloat Permutation.
From Stdlib Require Import Strings.String Strings.Byte.
Import ListNotations.
Local Open Scope Z_scope.

(** ** cache_infra.py *)

Inductive BlockSize := B8 | B64.

(** [BlockSize.X.value] *)
Definition BlockSize_value (s : BlockSize) : Z :=
  match s with B8 => 8 | B64 => 64 end.

Definition BlockSize_eqb (a b : BlockSize) : bool :=
  match a, b with B8, B8 | B64, B64 => true | _, _ => false end.

Record CacheKey := mkCacheKey { key_offset : Z; key_size : BlockSize }.

(** [CacheKey.__eq__] *)
Definition CacheKey_eqb (a b : CacheKey) : bool :=
  (key_offset a =? key_offset b) && BlockSize_eqb (key_size a) (key_size b).

Definition bytes := list byte.

Record CacheValue := mkCacheValue
  { data : bytes; access_time : Q; hit_count : Z }.

(** [len(data)] *)
Definition len {A} (l : list A) : Z := Z.of_nat (List.length l).

(** ** Python dictionaries keyed by [CacheKey]

    A [dict] keeps its items in insertion order; assigning to a resident key
    keeps the key's position, assigning to a new key appends. *)

Definition dict (V : Type) := list (CacheKey * V).

Section Dict.
Context {V : Type}.

Fixpoint dict_get (d : dict V) (k : CacheKey) : option V :=
  match d with
  | [] => None
  | (k', v) :: d' => if CacheKey_eqb k k' then Some v else dict_get d' k
  end.

(** [k in d] *)
Definition dict_mem (d : dict V) (k : CacheKey) : bool :=
  match dict_get d k with Some _ => true | None => false end.

(** [d[k] = v] *)
Fixpoint dict_set (d : dict V) (k : CacheKey) (v : V) : dict V :=
  match d with
  | [] => [(k, v)]
  | (k', v') :: d' =>
      if CacheKey_eqb k k' then (k', v) :: d' else (k', v') :: dict_set d' k v
  end.

(** [del d[k]] on a resident key *)
Fixpoint dict_del (d : dict V) (k : CacheKey) : dict V :=
  match d with
  | [] => []
  | (k', v') :: d' =>
      if CacheKey_eqb k k' then d' else (k', v') :: dict_del d' k
  end.

Definition dict_keys (d : dict V) : list CacheKey := map fst d.
End Dict.

(** ** Floats

    A Python [float] and a numpy [float64] are IEEE 754 binary64 numbers:
    [spec_float] with precision 53 and largest exponent 1024, under the
    operations of the standard library's specification of floating-point
    arithmetic (round to nearest, ties to even).  Clock readings and the times
    stored from them are finite floats; they are kept as the rationals they
    denote, and a rational that is no binary64 value stands for the nearest
    one.  Python compares numbers by value, an [int] with a [float] as well as
    two floats: [pyfloat] is that domain of values. *)

Inductive pyfloat := Fin (q : Q) | PInf | NInf | NaN.

Definition Qltb (x y : Q) : bool := negb (Qle_bool y x).

(** [x < y] on the values of two numbers; a comparison with [nan] is false. *)
Definition pyfloat_ltb (x y : pyfloat) : bool :=
  match x, y with
  | NaN, _ | _, NaN => false
  | NInf, NInf => false
  | NInf, _ => true
  | _, NInf => false
  | Fin a, Fin b => Qltb a b
  | Fin _, PInf => true
  | PInf, _ => false
  end.

Definition float := spec_float.
Definition prec : Z := 53.
Definition emax : Z := 1024.

Definition fadd : float -> float -> float := SFadd prec emax.
Definition fsub : float -> float -> float := SFsub prec emax.
Definition fmul : float -> float -> float := SFmul prec emax.
Definition fdiv : float -> float -> float := SFdiv prec emax.

Definition float_zero : float := S754_zero false.

(** An integer as an unrounded mantissa with exponent 0. *)
Definition float_raw (z : Z) : float :=
  match z with
  | Z0 => float_zero
  | Zpos p => S754_finite false p 0
  | Zneg p => S754_finite true p 0
  end.

(** The float nearest to an integer. *)
Definition float_of_Z (z : Z) : float := binary_normalize prec emax z 0 false.

(** The float nearest to a rational: the correctly rounded quotient of its
    numerator and denominator.  It is the float itself when the rational is a
    binary64 value. *)
Definition float_of_Q (q : Q) : float :=
  fdiv (float_raw (Qnum q)) (S754_finite false (Qden q) 0).

(** The value of a float. *)
Definition float_value (f : float) : pyfloat :=
  match f with
  | S754_nan => NaN
  | S754_infinity s => if s then NInf else PInf
  | S754_zero _ => Fin 0
  | S754_finite s m e =>
      Fin (inject_Z (if s then Zneg m else Zpos m) * Qpower 2 e)
  end.

(** [f == 0]: both zeros are, [nan] is not. *)
Definition float_is_zero (f : float) : bool :=
  match f with S754_zero _ => true | _ => false end.

Definition float_is_inf (f : float) : bool :=
  match f with S754_infinity _ => true | _ => false end.

(** ** Policy objects (evictor_policies.py) *)

(** [collections.deque] with a [maxlen] *)
Record deque := mkdeque { dq_items : list Q; dq_maxlen : nat }.

(** [deque.append]: a full deque drops its oldest (leftmost) item. *)
Definition deque_append (q : deque) (x : Q) : deque :=
  match dq_maxlen q with
  | O => q
  | S _ =>
      if (List.length (dq_items q) <? dq_maxlen q)%nat
      then mkdeque (dq_items q ++ [x]) (dq_maxlen q)
      else mkdeque (tl (dq_items q) ++ [x]) (dq_maxlen q)
  end.

Record LFUDADecayFactorEvictor := mkLFUDADecayFactorEvictor
  { recent_accesses : dict deque;
    max_recent_accesses : nat;
    decay_factor : Q }.

Record LFUDAEvictor := mkLFUDAEvictor
  { frequency_count : dict Z;
    last_access_time : dict Q }.

Record LFUEvictor := mkLFUEvictor
  { lfu_frequency_count : dict Z }.

Record HotBlockEvictor := mkHotBlockEvictor
  { hot_block_threshold : Q;
    hot_blocks : dict Z }.

(** An object of one of the policy classes: the base class [EvictionPolicy]
    and its five variants. *)
Inductive Evictor :=
| IsEvictionPolicy
| IsLFUDADecayFactorEvictor (o : LFUDADecayFactorEvictor)
| IsLFUDAEvictor (o : LFUDAEvictor)
| IsLRUEvictor
| IsLFUEvictor (o : LFUEvictor)
| IsHotBlockEvictor (o : HotBlockEvictor).

(** ** The world outside a [Cache] object, and the monad of effects *)

Inductive exn :=
| KeyError | TypeError | ValueError | ZeroDivisionError | OverflowError
| FileNotFoundError | OSError.

Inductive outcome (A : Type) :=
| Ret (a : A)
| Raise (e : exn).
Arguments Ret {A} a.
Arguments Raise {A} e.

(** What the code takes from the platform it runs on: the largest offset
    the file system lets [seek] move to, and numpy's [float64 ** int64]
    (the C library's [pow], whose last bit is not fixed by IEEE 754). *)
Record Platform := mkPlatform
  { seek_limit : Z;
    np_power : spec_float -> Z -> spec_float }.

Record World := mkWorld
  { clock : nat -> Q;                     (* successive readings of time.time() *)
    ticks : nat;                          (* readings made so far *)
    disk : string -> option bytes;        (* the files that exist, by path *)
    platform : Platform;
    set_order : list CacheKey -> list CacheKey;
                                          (* iteration order of a set of keys *)
    heap : nat -> Evictor;                (* policy objects, by identity *)
    hook_log : list (nat * CacheKey) }.   (* ghost: calls of update_internal_cache *)

Definition M (A : Type) := World -> outcome A * World.

Definition ret {A} (a : A) : M A := fun w => (Ret a, w).
Definition raise {A} (e : exn) : M A := fun w => (Raise e, w).
Definition bind {A B} (m : M A) (f : A -> M B) : M B :=
  fun w => match m w with
           | (Ret a, w') => f a w'
           | (Raise e, w') => (Raise e, w')
           end.

Notation "x <- m ;; k" := (bind m (fun x => k))
  (at level 61, m at next level, right associativity).
Notation "m ;;; k" := (bind m (fun _ => k))
  (at level 61, right associativity).

(** [time.time()] *)
Definition time_time : M Q :=
  fun w => (Ret (clock w (ticks w)),
            mkWorld (clock w) (S (ticks w)) (disk w) (platform w) (set_order w) (heap w)
                    (hook_log w)).

(** Assignment to the attributes of the policy object at address [a]. *)
Definition store (a : nat) (o : Evictor) : M unit :=
  fun w => (Ret tt,
            mkWorld (clock w) (ticks w) (disk w) (platform w) (set_order w)
                    (fun a' => if Nat.eqb a' a then o else heap w a') (hook_log w)).

Definition log_hook (a : nat) (k : CacheKey) : M unit :=
  fun w => (Ret tt,
            mkWorld (clock w) (ticks w) (disk w) (platform w) (set_order w) (heap w)
                    (hook_log w ++ [(a, k)])).

Definition get_set_order : M (list CacheKey -> list CacheKey) :=
  fun w => (Ret (set_order w), w).

Definition get_disk : M (string -> option bytes) :=
  fun w => (Ret (disk w), w).

Definition get_platform : M Platform :=
  fun w => (Ret (platform w), w).

Definition load (a : nat) : M Evictor :=
  fun w => (Ret (heap w a), w).

(** A [for] loop over a list whose body threads an accumulator. *)
Fixpoint for_each {A B} (l : list A) (body : B -> A -> M B) (acc : B) : M B :=
  match l with
  | [] => ret acc
  | x :: l' => acc' <- body acc x ;; for_each l' body acc'
  end.

(** ** Python's arithmetic on [int] and [float] *)

Inductive pynum := PyInt (z : Z) | PyFloat (f : float).

Definition pynum_value (x : pynum) : pyfloat :=
  match x with
  | PyInt z => Fin (inject_Z z)
  | PyFloat f => float_value f
  end.

(** The conversion of an [int] operand to [float]: correctly rounded, and an
    [OverflowError] when the result is too large for a float. *)
Definition float_of_int (z : Z) : outcome float :=
  if float_is_inf (float_of_Z z) then Raise OverflowError
  else Ret (float_of_Z z).

Definition pynum_float (x : pynum) : outcome float :=
  match x with
  | PyInt z => float_of_int z
  | PyFloat f => Ret f
  end.

(** [x + y] *)
Definition py_add (x y : pynum) : outcome pynum :=
  match x, y with
  | PyInt a, PyInt b => Ret (PyInt (a + b))
  | _, _ =>
      match pynum_float x with
      | Raise e => Raise e
      | Ret fx =>
          match pynum_float y with
          | Raise e => Raise e
          | Ret fy => Ret (PyFloat (fadd fx fy))
          end
      end
  end.

(** The quotient of two integers as a rational, [b] not 0. *)
Definition Z_quotient (a b : Z) : Q :=
  match b with
  | Zpos p => a # p
  | Zneg p => (- a) # p
  | Z0 => 0
  end.

(** [x / y], true division: [int / int] is the correctly rounded quotient;
    a zero divisor raises. *)
Definition py_truediv (x y : pynum) : outcome pynum :=
  match x, y with
  | PyInt a, PyInt b =>
      if b =? 0 then Raise ZeroDivisionError
      else if float_is_inf (float_of_Q (Z_quotient a b)) then Raise OverflowError
      else Ret (PyFloat (float_of_Q (Z_quotient a b)))
  | _, _ =>
      match pynum_float x with
      | Raise e => Raise e
      | Ret fx =>
          match pynum_float y with
          | Raise e => Raise e
          | Ret fy =>
              if float_is_zero fy then Raise ZeroDivisionError
              else Ret (PyFloat (fdiv fx fy))
          end
      end
  end.

(** An outcome of pure code, inside the monad. *)
Definition lift {A} (o : outcome A) : M A :=
  match o with
  | Ret a => ret a
  | Raise e => raise e
  end.

(** ** evictor_policies.py: the policies' methods *)

(** The loop body of [choose_oldest]. *)
Definition oldest_step (st : option CacheKey * pyfloat)
    (kv : CacheKey * CacheValue) : option CacheKey * pyfloat :=
  let '(oldest_key, oldest_access_time) := st in
  let '(key, value) := kv in
  if pyfloat_ltb (Fin (access_time value)) oldest_access_time
  then (Some key, Fin (access_time value))
  else (oldest_key, oldest_access_time).

(** [choose_oldest]: the first entry, in iteration order, whose access time is
    strictly below every earlier one. *)
Definition choose_oldest (cache : dict CacheValue) : option CacheKey :=
  fst (fold_left oldest_step cache (None, PInf)).

(** *** LFUDADecayFactorEvictor *)

(** [np.asarray] of a deque of floats *)
Definition np_asarray (q : deque) : list float := map float_of_Q (dq_items q).

(** [np.arange(n)] *)
Definition np_arange (n : nat) : list Z := map Z.of_nat (seq 0 n).

(** [d ** np.arange(n)] *)
Definition np_powers (pow : float -> Z -> float) (d : float) (n : nat)
  : list float :=
  map (pow d) (np_arange n).

(** The element-wise product of two arrays. *)
Fixpoint np_mul (a b : list float) : list float :=
  match a, b with
  | x :: a', y :: b' => fmul x y :: np_mul a' b'
  | _, _ => []
  end.

(** The builtin [sum], which starts from the [int] 0 and adds from the left. *)
Definition py_sum (l : list float) : float := fold_left fadd l float_zero.

(** The score the loop body of [choose_victim] computes for one key (lines
    45-51), as a value.  The operands are numpy [float64]: the quotient by a
    zero is an infinity, not an exception.  [0 / 8] on the [int] 0 of an empty
    queue is the float 0. *)
Definition decay_recency_score (self : LFUDADecayFactorEvictor)
    (pow : float -> Z -> float) (current_time : Q) (key : CacheKey)
    (access_timestamps : deque) : pyfloat :=
  let recency_score :=
    match dq_items access_timestamps with
    | [] => float_zero
    | _ :: _ =>
        fdiv (float_of_Z 1)
             (fsub (fmul (float_of_Q current_time) (float_of_Z 2))
                   (py_sum (np_mul (np_asarray access_timestamps)
                              (np_powers pow (float_of_Q (decay_factor self))
                                 (List.length (dq_items access_timestamps))))))
    end in
  float_value
    match key_size key with
    | B64 => fdiv recency_score (float_of_Z 8)
    | B8 => recency_score
    end.

(** The body of the selection loop shared by the two scoring policies: a
    resident key whose score is strictly below the running minimum becomes the
    victim. *)
Definition min_step (cache : dict CacheValue)
    (st : option CacheKey * pyfloat) (ks : CacheKey * pyfloat)
  : option CacheKey * pyfloat :=
  let '(victim, min_score) := st in
  let '(key, score) := ks in
  if dict_mem cache key && pyfloat_ltb score min_score
  then (Some key, score)
  else (victim, min_score).

(** The selection loop, from [victim = None] and [min_score = inf]. *)
Definition min_loop (cache : dict CacheValue)
    (scores : list (CacheKey * pyfloat)) : option CacheKey * pyfloat :=
  fold_left (min_step cache) scores (None, PInf).

Definition LFUDADecayFactorEvictor_choose_victim
    (self : LFUDADecayFactorEvictor) (cache : dict CacheValue)
  : M (option CacheKey) :=
  current_time <- time_time ;;
  plat <- get_platform ;;
  ret (fst (min_loop cache
              (map (fun kq => (fst kq,
                               decay_recency_score self (np_power plat)
                                 current_time (fst kq) (snd kq)))
                   (recent_accesses self)))).

Definition LFUDADecayFactorEvictor_update_internal_cache
    (addr : nat) (self : LFUDADecayFactorEvictor)
    (cache : dict CacheValue) (key : CacheKey) : M unit :=
  let recent :=
    if dict_mem (recent_accesses self) key then recent_accesses self
    else dict_set (recent_accesses self) key
                  (mkdeque [] (max_recent_accesses self)) in
  store addr (IsLFUDADecayFactorEvictor
                (mkLFUDADecayFactorEvictor recent (max_recent_accesses self)
                   (decay_factor self))) ;;;
  now <- time_time ;;
  let recent' :=
    match dict_get recent key with
    | Some q => dict_set recent key (deque_append q now)
    | None => recent
    end in
  store addr (IsLFUDADecayFactorEvictor
                (mkLFUDADecayFactorEvictor recent' (max_recent_accesses self)
                   (decay_factor self))).

(** *** LFUDAEvictor *)

(** The truth value of [d.get(key)] for a dict of floats: [None] and a zero
    are false. *)
Definition get_is_truthy (d : dict Q) (key : CacheKey) : bool :=
  match dict_get d key with
  | None => false
  | Some t => negb (float_is_zero (float_of_Q t))
  end.

(** The body of the first loop of [choose_victim] (lines 80-90): the entry of
    [combined_scores] for one key, as a value.  [recency_score] is the [int] 1
    or 0 or a float, so that [combined_score] is an [int] or a float. *)
Definition LFUDA_combined_score (self : LFUDAEvictor)
    (key : CacheKey) (value : Z) : M pyfloat :=
  t1 <- time_time ;;
  let time_passed :=
    fsub (float_of_Q t1)
         (match dict_get (last_access_time self) key with
          | Some t => float_of_Q t
          | None => float_zero
          end) in
  recency_score <-
    (if float_is_zero time_passed then ret (PyInt 1)
     else if negb (get_is_truthy (last_access_time self) key) then ret (PyInt 0)
     else t2 <- time_time ;;
          match dict_get (last_access_time self) key with
          | Some t =>
              lift (py_truediv (PyInt 1)
                      (PyFloat (fsub (float_of_Q t2) (float_of_Q t))))
          | None => raise TypeError
          end) ;;
  combined_score <- lift (py_add (PyInt value) recency_score) ;;
  score <- (if BlockSize_eqb (key_size key) B8 then ret combined_score
            else lift (py_truediv combined_score (PyInt 8))) ;;
  ret (pynum_value score).

Definition LFUDA_combined_scores (self : LFUDAEvictor) : M (dict pyfloat) :=
  for_each (frequency_count self)
    (fun combined_scores kv =>
       s <- LFUDA_combined_score self (fst kv) (snd kv) ;;
       ret (dict_set combined_scores (fst kv) s))
    [].

Definition LFUDAEvictor_choose_victim (self : LFUDAEvictor)
    (cache : dict CacheValue) : M (option CacheKey) :=
  combined_scores <- LFUDA_combined_scores self ;;
  ret (fst (min_loop cache combined_scores)).

Definition LFUDAEvictor_update_internal_cache (addr : nat) (self : LFUDAEvictor)
    (cache : dict CacheValue) (key : CacheKey) : M unit :=
  let freq :=
    if dict_mem (frequency_count self) key then frequency_count self
    else dict_set (frequency_count self) key 0 in
  let freq' :=
    match dict_get freq key with
    | Some n => dict_set freq key (n + 1)
    | None => freq
    end in
  store addr (IsLFUDAEvictor (mkLFUDAEvictor freq' (last_access_time self))) ;;;
  now <- time_time ;;
  store addr (IsLFUDAEvictor
                (mkLFUDAEvictor freq' (dict_set (last_access_time self) key now))).

(** *** LRUEvictor *)

Definition LRUEvictor_choose_victim (cache : dict CacheValue)
  : M (option CacheKey) :=
  ret (choose_oldest cache).

(** *** LFUEvictor *)

(** [d[key] = 0 if absent; d[key] += 1] *)
Definition bump (d : dict Z) (key : CacheKey) : dict Z :=
  let d0 := if dict_mem d key then d else dict_set d key 0 in
  match dict_get d0 key with
  | Some n => dict_set d0 key (n + 1)
  | None => d0
  end.

(** [a < b] on the results of [dict.get]: comparing with [None] raises. *)
Definition py_lt_opt (a b : option Z) : outcome bool :=
  match a, b with
  | Some x, Some y => Ret (x <? y)
  | _, _ => Raise TypeError
  end.

(** The builtin [min(iterable, key=f)]: the first item whose key is strictly
    below the keys of all earlier items; an empty iterable raises. *)
Fixpoint py_min_from (f : CacheKey -> option Z) (best : CacheKey)
    (l : list CacheKey) : outcome CacheKey :=
  match l with
  | [] => Ret best
  | k :: l' =>
      match py_lt_opt (f k) (f best) with
      | Ret true => py_min_from f k l'
      | Ret false => py_min_from f best l'
      | Raise e => Raise e
      end
  end.

Definition py_min (f : CacheKey -> option Z) (l : list CacheKey)
  : outcome CacheKey :=
  match l with
  | [] => Raise ValueError
  | k :: l' => py_min_from f k l'
  end.

Definition LFUEvictor_choose_victim (addr : nat) (self : LFUEvictor)
    (cache : dict CacheValue) : M (option CacheKey) :=
  let freq := fold_left bump (dict_keys cache) (lfu_frequency_count self) in
  store addr (IsLFUEvictor (mkLFUEvictor freq)) ;;;
  match py_min (dict_get freq) (dict_keys cache) with
  | Ret k => ret (Some k)
  | Raise e => raise e
  end.

(** *** HotBlockEvictor *)

(** The set comprehension of line 170: one clock reading per resident entry,
    in the mapping's order. *)
Definition recently_accessed (threshold : Q) (cache : dict CacheValue)
  : M (list CacheKey) :=
  for_each cache
    (fun acc kv =>
       now <- time_time ;;
       ret (if pyfloat_ltb
                 (float_value (fsub (float_of_Q now)
                                    (float_of_Q (access_time (snd kv)))))
                 (Fin threshold)
            then acc ++ [fst kv] else acc))
    [].

(** The body of the loop of lines 182-185. *)
Definition hottest_step (cache : dict CacheValue)
    (st : option CacheKey * Z) (ks : CacheKey * Z) : option CacheKey * Z :=
  let '(victim, hottest_score) := st in
  let '(key, score) := ks in
  if dict_mem cache key && (hottest_score <? score)
  then (Some key, score)
  else (victim, hottest_score).

(** The loop of lines 180-185: the first tracked resident key whose counter
    is strictly above every earlier one, starting from 0. *)
Definition hottest (cache : dict CacheValue) (hot : dict Z)
  : option CacheKey * Z :=
  fold_left (hottest_step cache) hot (None, 0).

(** [del d[k]]: deleting an absent key raises. *)
Definition py_del {V} (d : dict V) (k : CacheKey) : outcome (dict V) :=
  if dict_mem d k then Ret (dict_del d k) else Raise KeyError.

Definition HotBlockEvictor_choose_victim (addr : nat) (self : HotBlockEvictor)
    (cache : dict CacheValue) : M (option CacheKey) :=
  recently_accessed_blocks <- recently_accessed (hot_block_threshold self) cache ;;
  order <- get_set_order ;;
  let hot := fold_left bump (order recently_accessed_blocks) (hot_blocks self) in
  store addr (IsHotBlockEvictor (mkHotBlockEvictor (hot_block_threshold self) hot)) ;;;
  match fst (hottest cache hot) with
  | None =>
      (* [None not in cache] holds, and [None] is no key of [hot_blocks] *)
      raise KeyError
  | Some victim =>
      if dict_mem cache victim then ret (Some victim)
      else match py_del hot victim with
           | Ret hot' =>
               store addr (IsHotBlockEvictor
                             (mkHotBlockEvictor (hot_block_threshold self) hot')) ;;;
               ret (Some victim)
           | Raise e => raise e
           end
  end.

(** *** Method dispatch on the object at an address *)

Definition choose_victim (addr : nat) (cache : dict CacheValue)
  : M (option CacheKey) :=
  o <- load addr ;;
  match o with
  | IsEvictionPolicy => ret None
  | IsLFUDADecayFactorEvictor self => LFUDADecayFactorEvictor_choose_victim self cache
  | IsLFUDAEvictor self => LFUDAEvictor_choose_victim self cache
  | IsLRUEvictor => LRUEvictor_choose_victim cache
  | IsLFUEvictor self => LFUEvictor_choose_victim addr self cache
  | IsHotBlockEvictor self => HotBlockEvictor_choose_victim addr self cache
  end.

Definition update_internal_cache (addr : nat) (cache : dict CacheValue)
    (key : CacheKey) : M unit :=
  log_hook addr key ;;;
  o <- load addr ;;
  match o with
  | IsLFUDADecayFactorEvictor self =>
      LFUDADecayFactorEvictor_update_internal_cache addr self cache key
  | IsLFUDAEvictor self =>
      LFUDAEvictor_update_internal_cache addr self cache key
  | IsEvictionPolicy | IsLRUEvictor | IsLFUEvictor _ | IsHotBlockEvictor _ => ret tt
  end.

(** The module-level instances (lines 196-201), at fixed addresses. *)
Definition lFUDADecayFactorEvictor : nat := 0.
Definition hot_block_evictor : nat := 2.
Definition lru_evictor : nat := 3.
Definition lfu_evictor : nat := 4.

(** [LFUDADecayFactorEvictor.__init__] *)
Definition LFUDADecayFactorEvictor_init (decay_factor : Q)
  : LFUDADecayFactorEvictor :=
  mkLFUDADecayFactorEvictor [] 10 decay_factor.

(** The heap once the module [evictor_policies] is imported. *)
Definition module_heap : nat -> Evictor :=
  fun a =>
    match a with
    | 0%nat => IsLFUDADecayFactorEvictor (LFUDADecayFactorEvictor_init (1 # 2))
    | 1%nat => IsLFUDAEvictor (mkLFUDAEvictor [] [])
    | 2%nat => IsHotBlockEvictor (mkHotBlockEvictor 10 [])
    | 3%nat => IsLRUEvictor
    | 4%nat => IsLFUEvictor (mkLFUEvictor [])
    | _ => IsEvictionPolicy
    end.

Definition initial_world (clk : nat -> Q) (dsk : string -> option bytes)
    (plat : Platform) (ord : list CacheKey -> list CacheKey) : World :=
  mkWorld clk 0 dsk plat ord module_heap [].

(** ** cache.py *)

Record CacheResponse := mkCacheResponse { resp_data : bytes; is_hit : bool }.

Record Cache := mkCache
  { Cache_frequency_count : dict Z;
    Cache_max_size : Z;
    Cache_cache : dict CacheValue;
    Cache_size : Z;
    Cache_evictor : nat;
    Cache_dynamic_evictor : bool;
    Cache_file_path : string }.

(** [Cache.__init__]; an omitted keyword argument is [None] here and takes the
    default of the signature. *)
Definition Cache_init (file_path : string) (max_size : option Z)
    (evictor : option nat) : Cache :=
  mkCache []
          (match max_size with Some m => m | None => 10 * 1024 end)
          []
          0
          (match evictor with Some e => e | None => lFUDADecayFactorEvictor end)
          false
          file_path.

(** [Cache.read_from_file].  [open] raises on a missing file.  [seek]
    raises [ValueError] when the offset does not fit the C type [off_t]
    (64 bits, signed), and [OSError] when the operating system refuses it: a
    negative offset, or one beyond what the file system supports.  [read]
    returns at most [size.value] bytes. *)
Definition read_from_file (offset : Z) (size : BlockSize) (file_path : string)
  : M bytes :=
  dsk <- get_disk ;;
  plat <- get_platform ;;
  match dsk file_path with
  | None => raise FileNotFoundError
  | Some content =>
      if (offset <? - 2 ^ 63) || (2 ^ 63 <=? offset) then raise ValueError
      else if (offset <? 0) || (seek_limit plat <? offset) then raise OSError
      else ret (firstn (Z.to_nat (BlockSize_value size))
                       (skipn (Z.to_nat offset) content))
  end.

(** [Cache.evict] *)
Definition evict (self : Cache) (data_ : bytes) (key : CacheKey) : M Cache :=
  match Cache_cache self with
  | [] => ret self
  | _ :: _ =>
      update_internal_cache (Cache_evictor self) (Cache_cache self) key ;;;
      if Cache_max_size self <? Cache_size self + len data_ then
        key_to_evict <- choose_victim (Cache_evictor self) (Cache_cache self) ;;
        match key_to_evict with
        | None => raise KeyError            (* self.cache[None] *)
        | Some k =>
            match dict_get (Cache_cache self) k with
            | None => raise KeyError
            | Some v =>
                ret (mkCache (Cache_frequency_count self) (Cache_max_size self)
                             (dict_del (Cache_cache self) k)
                             (Cache_size self - len (data v))
                             (Cache_evictor self) (Cache_dynamic_evictor self)
                             (Cache_file_path self))
            end
        end
      else ret self
  end.

(** [Cache.insert] *)
Definition insert (self : Cache) (key : CacheKey) (data_ : bytes) : M Cache :=
  self1 <- evict self data_ key ;;
  now <- time_time ;;
  ret (mkCache (Cache_frequency_count self1) (Cache_max_size self1)
               (dict_set (Cache_cache self1) key (mkCacheValue data_ now 1))
               (Cache_size self1 + len data_)
               (Cache_evictor self1) (Cache_dynamic_evictor self1)
               (Cache_file_path self1)).

(** [Cache.insert_and_respond] *)
Definition insert_and_respond (self : Cache) (key : CacheKey) (offset : Z)
    (size : BlockSize) : M (CacheResponse * Cache) :=
  data_ <- read_from_file offset size (Cache_file_path self) ;;
  self' <- insert self key data_ ;;
  ret (mkCacheResponse data_ false, self').

(** [n + m] for an [int] [n] and a member [m] of [BlockSize].  [BlockSize]
    derives from [Enum], not from [IntEnum]: [int.__add__] does not accept the
    member and the member has no [__radd__], so the addition raises. *)
Definition int_add_BlockSize (n : Z) (m : BlockSize) : outcome Z :=
  Raise TypeError.

(** The loop of [check_and_retrieve_consecutive_blocks] (lines 96-107), with
    [n] iterations left. *)
Fixpoint consecutive_loop (cache : dict CacheValue) (n : nat)
    (current_offset : Z) (consecutive_blocks : list bytes)
  : outcome (option bytes) :=
  match n with
  | O => Ret (Some (List.concat consecutive_blocks))
  | S n' =>
      match dict_get cache (mkCacheKey current_offset B8) with
      | None => Ret None
      | Some v =>
          match int_add_BlockSize current_offset B8 with
          | Ret current_offset' =>
              consecutive_loop cache n' current_offset'
                               (consecutive_blocks ++ [data v])
          | Raise e => Raise e
          end
      end
  end.

(** [Cache.check_and_retrieve_consecutive_blocks] *)
Definition check_and_retrieve_consecutive_blocks (self : Cache) (offset : Z)
  : M (option bytes) :=
  match consecutive_loop (Cache_cache self) 8 offset [] with
  | Ret r => ret r
  | Raise e => raise e
  end.

(** The truth value of an optional [bytes]: [None] and [b""] are false. *)
Definition is_truthy (o : option bytes) : bool :=
  match o with
  | Some (_ :: _) => true
  | _ => false
  end.

(** [Cache.get] *)
Definition get (self : Cache) (offset : Z) (size : BlockSize)
  : M (CacheResponse * Cache) :=
  let key := mkCacheKey offset size in
  match dict_get (Cache_cache self) key with
  | Some value =>
      now <- time_time ;;
      ret (mkCacheResponse (data value) true,
           mkCache (Cache_frequency_count self) (Cache_max_size self)
                   (dict_set (Cache_cache self) key
                      (mkCacheValue (data value) now (hit_count value)))
                   (Cache_size self)
                   (Cache_evictor self) (Cache_dynamic_evictor self)
                   (Cache_file_path self))
  | None =>
      match size with
      | B64 =>
          maybe_data <- check_and_retrieve_consecutive_blocks self offset ;;
          if is_truthy maybe_data
          then ret (mkCacheResponse
                      (match maybe_data with Some d => d | None => [] end) true,
                    self)
          else insert_and_respond self key offset size
      | B8 => insert_and_respond self key offset size
      end
  end.

(** A finite sequence of [get] calls on one store.  The result lists the
    response, the store and the world after each call; it is [None] as soon as
    one call raises. *)
Fixpoint run_gets (self : Cache) (calls : list (Z * BlockSize)) (w : World)
  : option (list (CacheResponse * Cache * World)) :=
  match calls with
  | [] => Some []
  | (offset, size) :: calls' =>
      match get self offset size w with
      | (Ret (r, self'), w') =>
          match run_gets self' calls' w' with
          | Some rest => Some ((r, self', w') :: rest)
          | None => None
          end
      | (Raise _, _) => None
      end
  end.

(** [Σ len(entry.data)] over the resident entries *)
Definition total_len (cache : dict CacheValue) : Z :=
  fold_right (fun kv acc => len (data (snd kv)) + acc) 0 cache.

(** ** Predicates used by the properties *)

(** What [evict] can have done when it returns. *)
Inductive evicted (self : Cache) : Cache -> Prop :=
| evicted_none : evicted self self
| evicted_one k v :
    dict_get (Cache_cache self) k = Some v ->
    evicted self
      (mkCache (Cache_frequency_count self) (Cache_max_size self)
               (dict_del (Cache_cache self) k)
               (Cache_size self - len (data v))
               (Cache_evictor self) (Cache_dynamic_evictor self)
               (Cache_file_path self)).

(** The size invariant of one store. *)
Definition size_ok (self : Cache) : Prop :=
  Cache_size self = total_len (Cache_cache self).


(** ** Fixtures: a 128-byte backing store with [b[i] = i], a clock that
    advances one second per reading from 100, and sets iterated in insertion
    order. *)

Definition file_128 : bytes :=
  map (fun n => match Byte.of_nat n with Some b => b | None => x00 end)
      (seq 0 128).

Definition test_clock (n : nat) : Q := inject_Z (100 + Z.of_nat n).

Definition test_disk (p : string) : option bytes :=
  if String.eqb p "data.bin" then Some file_128 else None.

(** A C library whose [pow] is correctly rounded, and a file system that
    takes offsets up to 16 TiB less one block. *)
Definition exact_power (d : float) (i : Z) : float :=
  if i =? 0 then float_of_Z 1
  else match float_value d with
       | Fin q => float_of_Q (Qpower q i)
       | PInf => d
       | NInf => if Z.odd i then d else S754_infinity false
       | NaN => d
       end.

Definition test_platform : Platform := mkPlatform (2 ^ 44 - 4096) exact_power.

Definition test_world : World :=
  initial_world test_clock test_disk test_platform (fun l => l).


(** The store and the world after a sequence of [get] calls that all return. *)
Definition after_gets (self : Cache) (calls : list (Z * BlockSize)) (w : World)
  : option (Cache * World) :=
  match run_gets self calls w with
  | Some trace => Some (last (map (fun x => (snd (fst x), snd x)) trace) (self, w))
  | None => None
  end.

(** A clock that advances one minute per reading. *)
Definition minute_clock (n : nat) : Q := inject_Z (100 + 60 * Z.of_nat n).


(** The eight small reads that cover the large block at offset 0. *)
Definition eight_small_reads : list (Z * BlockSize) :=
  [(0, B8); (8, B8); (16, B8); (24, B8); (32, B8); (40, B8); (48, B8); (56, B8)].

(** The offsets, in units of the small block, that coalescing looks at. *)
Definition block_indices : list Z := [0; 1; 2; 3; 4; 5; 6; 7].


(** A store of capacity 8 with the default policy, after one small read. *)
Definition one_small_read : Cache * World :=
  let c := Cache_init "data.bin" (Some 8) None in
  match after_gets c [(0, B8)] test_world with
  | Some p => p
  | None => (c, test_world)
  end.


(** A store of capacity 8 with the hot-block policy, after one small read,
    under the clock that advances a minute per reading. *)
Definition one_small_read_hot : Cache * World :=
  let c := Cache_init "data.bin" (Some 8) (Some hot_block_evictor) in
  let w := initial_world minute_clock test_disk test_platform (fun l => l) in
  match after_gets c [(0, B8)] w with
  | Some p => p
  | None => (c, w)
  end.


(** [m] leaves the component [f] of the world as it found it, whatever its
    outcome. *)
Definition preserves {T A} (f : World -> T) (m : M A) : Prop :=
  forall w, f (snd (m w)) = f w.


(** The store and the world after [calls], or the initial ones if a call
    raises. *)
Definition state_after (c : Cache) (calls : list (Z * BlockSize)) (w : World)
  : Cache * World :=
  match after_gets c calls w with
  | Some p => p
  | None => (c, w)
  end.

(** The calls of the access-recording hook that one insertion of [key] into
    [self] makes. *)
Definition hook_calls (self : Cache) (key : CacheKey) : list (nat * CacheKey) :=
  match Cache_cache self with
  | [] => []
  | _ :: _ => [(Cache_evictor self, key)]
  end.


(** What [read_from_file] returns for a key when the file holds [content]. *)
Definition file_slice (content : bytes) (k : CacheKey) : bytes :=
  firstn (Z.to_nat (BlockSize_value (key_size k)))
         (skipn (Z.to_nat (key_offset k)) content).

(** Every resident buffer is the slice of the file at its key. *)
Definition buffers_ok (content : bytes) (cache : dict CacheValue) : Prop :=
  forall k v, In (k, v) cache -> 0 <= key_offset k /\ data v = file_slice content k.


(** The decayed sum as the specification words it: [Σ t_i · d^i], the queue
    ordered oldest to newest and [i] counted from the start of the queue (here
    from [i]); in float arithmetic the terms are added from the left, onto
    [acc]. *)
Fixpoint weighted_sum (pow : float -> Z -> float) (d : float) (i : Z)
    (ts : list float) (acc : float) : float :=
  match ts with
  | [] => acc
  | t :: ts' => weighted_sum pow d (i + 1) ts' (fadd acc (fmul t (pow d i)))
  end.

(** The last [n] items of a list. *)
Definition lastn {A} (n : nat) (l : list A) : list A :=
  skipn (List.length l - n) l.

(** The state of a decayed-recency policy built by [__init__]: every queue
    was created with [maxlen = 10]. *)
Definition decay_wf (self : LFUDADecayFactorEvictor) : Prop :=
  max_recent_accesses self = 10%nat /\
  forall k q, In (k, q) (recent_accesses self) ->
              dq_maxlen q = 10%nat /\ (List.length (dq_items q) <= 10)%nat.

(** The world after one more clock reading. *)
Definition tick (w : World) : World :=
  mkWorld (clock w) (S (ticks w)) (disk w) (platform w) (set_order w) (heap w)
                    (hook_log w).


(** The score of the decayed-recency policy as the specification words it:
    [1 / (2·now − Σ t_i·d^i)], 0 for an empty queue, and the result divided by
    8 for a large-granularity key; every operation is the binary64 one, so
    that the quotient by a zero denominator is an infinity. *)
Definition spec_recency_score (pow : float -> Z -> float) (d now : Q)
    (key : CacheKey) (ts : list Q) : pyfloat :=
  let base :=
    match ts with
    | [] => float_zero
    | _ :: _ =>
        fdiv (float_of_Z 1)
             (fsub (fmul (float_of_Z 2) (float_of_Q now))
                   (weighted_sum pow (float_of_Q d) 0 (map float_of_Q ts)
                      float_zero))
    end in
  float_value
    match key_size key with
    | B64 => fdiv base (float_of_Z 8)
    | B8 => base
    end.

(** The queue of [key] before an access is recorded: empty if there is none. *)
Definition queue_items (self : LFUDADecayFactorEvictor) (key : CacheKey) : list Q :=
  match dict_get (recent_accesses self) key with
  | Some q => dq_items q
  | None => []
  end.








(** A frequency+recency policy that has seen the large block at offset 0 once,
    at time 99. *)
Definition lfuda_example : LFUDAEvictor :=
  mkLFUDAEvictor [(mkCacheKey 0 B64, 1)] [(mkCacheKey 0 B64, inject_Z 99)].


Definition two_small_blocks : dict CacheValue :=
  [(mkCacheKey 0 B8, mkCacheValue (firstn 8 file_128) (inject_Z 99) 1);
   (mkCacheKey 8 B8, mkCacheValue (firstn 8 (skipn 8 file_128)) (inject_Z 98) 1)].


(** A decayed-recency policy whose two queues hold 101 and 100, and a clock
    that shows [2^60]: the two scores differ as real numbers and are the same
    binary64 number. *)
Definition decay_tie : LFUDADecayFactorEvictor :=
  mkLFUDADecayFactorEvictor
    [(mkCacheKey 0 B8, mkdeque [inject_Z 101] 10);
     (mkCacheKey 8 B8, mkdeque [inject_Z 100] 10)]
    10 (1 # 2).

Definition late_clock (n : nat) : Q := inject_Z (2 ^ 60).

Definition late_world : World :=
  initial_world late_clock test_disk test_platform (fun l => l).

(** A clock that is set back between two readings: 100, then 99. *)
Definition set_back_clock (n : nat) : Q :=
  match n with
  | O => inject_Z 100
  | S _ => inject_Z 99
  end.

Definition set_back_world : World :=
  initial_world set_back_clock test_disk test_platform (fun l => l).

(** [n] more clock readings. *)
Fixpoint ticks_on (n : nat) (w : World) : World :=
  match n with
  | O => w
  | S n' => tick (ticks_on n' w)
  end.

(** The keys the set comprehension of the hot-block policy collects, in the
    mapping's order: the entry at position [j] is compared with the clock
    reading [i + j]. *)
Fixpoint recent_keys (threshold : Q) (clk : nat -> Q) (i : nat)
    (cache : dict CacheValue) : list CacheKey :=
  match cache with
  | [] => []
  | (k, v) :: rest =>
      if pyfloat_ltb
           (float_value (fsub (float_of_Q (clk i)) (float_of_Q (access_time v))))
           (Fin threshold)
      then k :: recent_keys threshold clk (S i) rest
      else recent_keys threshold clk (S i) rest
  end.


(** Two stores built without an [evictor] argument, and the calls made on
    each. *)
Definition store_A : Cache := Cache_init "data.bin" (Some 16) None.
Definition store_B : Cache := Cache_init "data.bin" (Some 16) None.
Definition calls_A : list (Z * BlockSize) := [(0, B8); (8, B8); (16, B8)].
Definition calls_B : list (Z * BlockSize) := [(100, B8); (0, B8)].

(** A second store that owns a policy instance of its own, at a fresh
    address, in a world where that instance has been constructed. *)
Definition private_evictor : nat := 5.
Definition store_B_private : Cache :=
  Cache_init "data.bin" (Some 16) (Some private_evictor).
Definition test_world_private : World :=
  snd (store private_evictor
         (IsLFUDADecayFactorEvictor (LFUDADecayFactorEvictor_init (1 # 2)))
         test_world).


(** The counter a dict of counters holds for [k]: 0 if there is none. *)
Definition count_of (d : dict Z) (k : CacheKey) : Z :=
  match dict_get d k with
  | Some n => n
  | None => 0
  end.


(** The policy object at [addr] is a well-formed decayed-recency policy. *)
Definition decay_at (addr : nat) (w : World) : Prop :=
  exists o, heap w addr = IsLFUDADecayFactorEvictor o /\ decay_wf o.


(** The value a computation returned, if it returned. *)
Definition returned {A} (x : outcome A * World) : option A :=
  match fst x with
  | Ret a => Some a
  | Raise _ => None
  end.

Definition defined {A} (o : option A) : bool :=
  match o with
  | Some _ => true
  | None => false
  end.

(** * Properties *)

(** ** Keys and dictionaries *)

Lemma BlockSize_eqb_eq (a b : BlockSize) : BlockSize_eqb a b = true <-> a = b.
Proof. destruct a, b; simpl; split; congruence. Qed.

Lemma CacheKey_eqb_eq (a b : CacheKey) : CacheKey_eqb a b = true <-> a = b.
Proof.
  destruct a as [oa sa], b as [ob sb]; unfold CacheKey_eqb; simpl.
  rewrite andb_true_iff, Z.eqb_eq, BlockSize_eqb_eq.
  split; [intros [-> ->]; reflexivity | intros H; inversion H; auto].
Qed.

Lemma CacheKey_eqb_refl (a : CacheKey) : CacheKey_eqb a a = true.
Proof. apply CacheKey_eqb_eq; reflexivity. Qed.

Lemma dict_mem_true {V} (d : dict V) k :
  dict_mem d k = true <-> exists v, dict_get d k = Some v.
Proof.
  unfold dict_mem; destruct (dict_get d k); split; intros H;
    try discriminate; eauto.
  destruct H as [? H]; discriminate.
Qed.

Lemma dict_get_In {V} (d : dict V) k v :
  dict_get d k = Some v -> In (k, v) d.
Proof.
  induction d as [|[k' v'] d IH]; simpl; [discriminate|].
  destruct (CacheKey_eqb k k') eqn:E.
  - intros H; inversion H; subst. apply CacheKey_eqb_eq in E; subst; auto.
  - auto.
Qed.

Lemma dict_get_del_absent {V} (d : dict V) k k' :
  dict_get d k = None -> dict_get (dict_del d k') k = None.
Proof.
  induction d as [|[k0 v0] d IH]; simpl; auto.
  destruct (CacheKey_eqb k k0) eqn:E; [discriminate|].
  intros H. destruct (CacheKey_eqb k' k0); simpl; auto.
  rewrite E; auto.
Qed.

Lemma In_dict_del {V} (d : dict V) k x : In x (dict_del d k) -> In x d.
Proof.
  induction d as [|[k0 v0] d IH]; simpl; auto.
  destruct (CacheKey_eqb k k0); simpl; intuition.
Qed.

Lemma In_dict_set {V} (d : dict V) k v x :
  In x (dict_set d k v) -> In x d \/ x = (k, v).
Proof.
  induction d as [|[k0 v0] d IH]; simpl.
  - intros [<-|[]]; auto.
  - destruct (CacheKey_eqb k k0) eqn:E; simpl.
    + apply CacheKey_eqb_eq in E; subst. intros [<-|H]; auto.
    + intros [<-|H]; auto. destruct (IH H); auto.
Qed.

Lemma total_len_set_absent (d : dict CacheValue) k v :
  dict_get d k = None -> total_len (dict_set d k v) = total_len d + len (data v).
Proof.
  induction d as [|[k0 v0] d IH]; simpl; [intros _; unfold total_len; simpl; lia|].
  destruct (CacheKey_eqb k k0); [discriminate|].
  intros H; unfold total_len in *; simpl; rewrite (IH H); lia.
Qed.

Lemma total_len_set_present (d : dict CacheValue) k v v0 :
  dict_get d k = Some v0 ->
  total_len (dict_set d k v) = total_len d - len (data v0) + len (data v).
Proof.
  induction d as [|[k0 v1] d IH]; simpl; [discriminate|].
  destruct (CacheKey_eqb k k0).
  - intros H; inversion H; subst; unfold total_len; simpl; lia.
  - intros H; unfold total_len in *; simpl; rewrite (IH H); lia.
Qed.

Lemma total_len_del (d : dict CacheValue) k v0 :
  dict_get d k = Some v0 ->
  total_len (dict_del d k) = total_len d - len (data v0).
Proof.
  induction d as [|[k0 v1] d IH]; simpl; [discriminate|].
  destruct (CacheKey_eqb k k0).
  - intros H; inversion H; subst; unfold total_len; simpl; lia.
  - intros H; unfold total_len in *; simpl; rewrite (IH H); lia.
Qed.

(** ** Inversion of the monad's operations *)

Lemma returned_eq {A} (x : outcome A * World) a :
  returned x = Some a -> x = (Ret a, snd x).
Proof.
  destruct x as [[b|e] w]; unfold returned; simpl; intros H; inversion H;
    reflexivity.
Qed.

Lemma defined_ex {A} (o : option A) : defined o = true -> exists a, o = Some a.
Proof. destruct o as [a|]; [eauto|discriminate]. Qed.

(** Evaluate a closed computation: [x] returns the value that evaluation
    finds, in the world [snd x]. *)
Ltac evaluate x E :=
  let v := eval vm_compute in (returned x) in
  match v with
  | Some ?a =>
      assert (E : x = (Ret a, snd x))
        by (apply returned_eq; vm_compute; reflexivity)
  end.

Lemma bind_Ret {A B} (m : M A) (f : A -> M B) w b w' :
  bind m f w = (Ret b, w') ->
  exists a w1, m w = (Ret a, w1) /\ f a w1 = (Ret b, w').
Proof.
  unfold bind; destruct (m w) as [[a|e] w1]; intros H; [eauto | discriminate].
Qed.

Lemma ret_Ret {A} (a b : A) w w' : ret a w = (Ret b, w') -> a = b /\ w = w'.
Proof. unfold ret; intros H; inversion H; auto. Qed.

Ltac inv_M :=
  repeat match goal with
    | H : bind _ _ _ = (Ret _, _) |- _ =>
        let a := fresh "a" in let w1 := fresh "w" in
        let H1 := fresh "Hm" in let H2 := fresh "Hk" in
        apply bind_Ret in H; destruct H as (a & w1 & H1 & H2)
    | H : ret _ _ = (Ret _, _) |- _ =>
        let E := fresh "E" in
        apply ret_Ret in H; destruct H as [E ?];
        try (injection E as); subst
    | H : raise _ _ = (Ret _, _) |- _ => discriminate H
    end.

(** ** The store's operations, case by case *)

Lemma evict_evicted self d key w self' w' :
  evict self d key w = (Ret self', w') -> evicted self self'.
Proof.
  unfold evict. destruct (Cache_cache self) as [|kv rest] eqn:Ec.
  - intros H; inv_M; constructor.
  - intros H; inv_M.
    destruct (Cache_max_size self <? Cache_size self + len d); inv_M;
      [|constructor].
    destruct a0 as [k|]; [|discriminate].
    destruct (dict_get (kv :: rest) k) as [v|] eqn:Eg; [|discriminate].
    inv_M. rewrite <- Ec in *. apply evicted_one; auto.
Qed.

Lemma evicted_size_ok self self' :
  evicted self self' -> size_ok self -> size_ok self'.
Proof.
  intros [|k v Hg] Hs; auto.
  unfold size_ok in *; simpl. rewrite (total_len_del _ _ _ Hg); lia.
Qed.

Lemma evicted_absent self self' k :
  evicted self self' -> dict_get (Cache_cache self) k = None ->
  dict_get (Cache_cache self') k = None.
Proof.
  intros [|k0 v Hg] Hk; auto. simpl; apply dict_get_del_absent; auto.
Qed.

Lemma insert_size_ok self key d w self' w' :
  insert self key d w = (Ret self', w') ->
  dict_get (Cache_cache self) key = None ->
  size_ok self -> size_ok self'.
Proof.
  unfold insert; intros H Hk Hs; inv_M.
  apply evict_evicted in Hm.
  pose proof (evicted_size_ok _ _ Hm Hs) as Hs1.
  pose proof (evicted_absent _ _ key Hm Hk) as Hk1.
  unfold size_ok in *; simpl.
  rewrite (total_len_set_absent _ _ _ Hk1); simpl; lia.
Qed.

Lemma get_size_ok self offset size w r self' w' :
  get self offset size w = (Ret (r, self'), w') ->
  size_ok self -> size_ok self'.
Proof.
  unfold get; intros H Hs.
  destruct (dict_get (Cache_cache self) (mkCacheKey offset size)) as [v|] eqn:Eg.
  - inv_M. unfold size_ok in *; simpl.
    rewrite (total_len_set_present _ _ _ _ Eg); simpl; lia.
  - assert (Hins : forall w r self' w',
               insert_and_respond self (mkCacheKey offset size) offset size w
               = (Ret (r, self'), w') -> size_ok self').
    { clear H. unfold insert_and_respond; intros w2 r2 s2 w2' H; inv_M.
      eapply insert_size_ok; eauto. }
    destruct size; [eauto|].
    inv_M. destruct (is_truthy a); [|eauto].
    inv_M. auto.
Qed.

Lemma run_gets_size_ok calls : forall self w trace,
  size_ok self ->
  run_gets self calls w = Some trace ->
  Forall (fun x => size_ok (snd (fst x))) trace.
Proof.
  induction calls as [|[offset size] calls IH]; simpl; intros self w trace Hs H.
  - inversion H; constructor.
  - destruct (get self offset size w) as [[[r self']|e] w'] eqn:Eg; [|discriminate].
    destruct (run_gets self' calls w') as [rest|] eqn:Er; [|discriminate].
    inversion H; subst; clear H.
    pose proof (get_size_ok _ _ _ _ _ _ _ Eg Hs) as Hs'.
    constructor; simpl; eauto.
Qed.

(** C1.  Size invariant: on a freshly constructed store, after each call of a
    finite sequence of [get] calls that all return normally, the size counter
    equals the sum of [len(entry.data)] over the resident entries. *)
Theorem size_invariant file_path max_size evictor calls w trace :
  run_gets (Cache_init file_path max_size evictor) calls w = Some trace ->
  Forall (fun x => Cache_size (snd (fst x)) = total_len (Cache_cache (snd (fst x))))
         trace.
Proof.
  intros H. eapply run_gets_size_ok in H; [exact H|].
  unfold size_ok, Cache_init; reflexivity.
Qed.

Lemma size_invariant_witness :
  exists trace,
    run_gets (Cache_init "data.bin" (Some 16) None)
             [(0, B8); (8, B8); (0, B8); (16, B8)] test_world = Some trace /\
    Forall (fun x => Cache_size (snd (fst x)) = total_len (Cache_cache (snd (fst x))))
           trace.
Proof.
  destruct (defined_ex
              (run_gets (Cache_init "data.bin" (Some 16) None)
                 [(0, B8); (8, B8); (0, B8); (16, B8)] test_world))
    as [trace E]; [vm_compute; reflexivity|].
  exists trace. split; [exact E|].
  apply (size_invariant "data.bin" (Some 16) None
           [(0, B8); (8, B8); (0, B8); (16, B8)] test_world).
  exact E.
Defined.

(** What a computation returned is what its outcome shows. *)
Lemma returned_inj {A} (x : outcome A * World) a b w :
  x = (Ret a, w) -> returned x = Some b -> a = b.
Proof. intros -> H. inversion H. reflexivity. Qed.

Lemma run_gets_one c offset size w r c' w' :
  get c offset size w = (Ret (r, c'), w') ->
  run_gets c [(offset, size)] w = Some [(r, c', w')].
Proof. intros E. cbn [run_gets]. rewrite E. reflexivity. Qed.

Lemma after_gets_state_after c calls w :
  defined (after_gets c calls w) = true ->
  after_gets c calls w
  = Some (fst (state_after c calls w), snd (state_after c calls w)).
Proof.
  unfold state_after. destruct (after_gets c calls w) as [[c' w']|];
    [reflexivity|discriminate].
Qed.

Ltac run_after :=
  match goal with
  | |- exists a w, after_gets ?c ?calls ?w0 = Some (a, w) /\ _ =>
      exists (fst (state_after c calls w0)), (snd (state_after c calls w0));
      split; [apply after_gets_state_after; vm_compute; reflexivity|]
  end.

(** ** Capacity *)

(** C2.  The capacity bound fails on the code: with [max_size = 64] and the
    default policy, two small entries are resident (16 bytes) when a large
    block (64 bytes, no more than [max_size]) is inserted; one entry is evicted
    and the store ends at 72 bytes. *)
Theorem capacity_exceeded_after_one_eviction :
  exists self w r self' w',
    after_gets (Cache_init "data.bin" (Some 64) None) [(0, B8); (8, B8)] test_world
      = Some (self, w) /\
    dict_keys (Cache_cache self) = [mkCacheKey 0 B8; mkCacheKey 8 B8] /\
    get self 64 B64 w = (Ret (r, self'), w') /\
    is_hit r = false /\
    len (resp_data r) <= Cache_max_size self /\
    dict_keys (Cache_cache self') = [mkCacheKey 0 B8; mkCacheKey 64 B64] /\
    Cache_size self' = 72 /\
    Cache_max_size self' = 64.
Proof.
  set (c := Cache_init "data.bin" (Some 64) None).
  set (p := state_after c [(0, B8); (8, B8)] test_world).
  evaluate (get (fst p) 64 B64 (snd p)) E.
  exists (fst p), (snd p). do 2 eexists. exists (snd (get (fst p) 64 B64 (snd p))).
  split; [apply after_gets_state_after; vm_compute; reflexivity|].
  split; [vm_compute; reflexivity|].
  split; [exact E|].
  repeat split; vm_compute; congruence.
Qed.

(** ** Coalescing *)

Lemma get_small_resident_raises self offset w v :
  dict_get (Cache_cache self) (mkCacheKey offset B64) = None ->
  dict_get (Cache_cache self) (mkCacheKey offset B8) = Some v ->
  get self offset B64 w = (Raise TypeError, w).
Proof.
  intros Hl Hs. unfold get. rewrite Hl.
  unfold bind, check_and_retrieve_consecutive_blocks; simpl.
  rewrite Hs. reflexivity.
Qed.

(** C3.  Under the claim's own precondition (the large key absent, the eight
    small keys resident) [get] does not return a hit: the scan stops at its
    first step, where [current_offset += BlockSize.B8] adds an [Enum] member to
    an [int], and [get] raises [TypeError]. *)
Theorem coalescing_raises_TypeError self offset w :
  dict_mem (Cache_cache self) (mkCacheKey offset B64) = false ->
  forallb (fun i => dict_mem (Cache_cache self) (mkCacheKey (offset + 8 * i) B8))
          block_indices = true ->
  get self offset B64 w = (Raise TypeError, w).
Proof.
  intros Hl Hs. simpl in Hs. apply andb_true_iff in Hs as [H0 _].
  apply dict_mem_true in H0 as [v Hv].
  replace (offset + 0) with offset in Hv by lia.
  unfold dict_mem in Hl.
  destruct (dict_get (Cache_cache self) (mkCacheKey offset B64)) eqn:E;
    [discriminate|].
  eapply get_small_resident_raises; eauto.
Qed.

Lemma coalescing_raises_TypeError_witness :
  exists self w,
    after_gets (Cache_init "data.bin" None None) eight_small_reads test_world
      = Some (self, w) /\
    get self 0 B64 w = (Raise TypeError, w).
Proof.
  set (p := state_after (Cache_init "data.bin" None None) eight_small_reads
              test_world).
  exists (fst p), (snd p).
  split; [apply after_gets_state_after; vm_compute; reflexivity|].
  apply coalescing_raises_TypeError; vm_compute; reflexivity.
Defined.

(** ** A policy that returns no victim *)

(** C4.  When the mapping is non-empty, the insertion goes over capacity and
    the policy returns [None], [insert] does not go on to store the entry:
    [self.cache[None]] raises [KeyError]. *)
Theorem none_victim_raises_KeyError self key d w w1 w2 :
  Cache_cache self <> [] ->
  Cache_max_size self < Cache_size self + len d ->
  update_internal_cache (Cache_evictor self) (Cache_cache self) key w = (Ret tt, w1) ->
  choose_victim (Cache_evictor self) (Cache_cache self) w1 = (Ret None, w2) ->
  insert self key d w = (Raise KeyError, w2).
Proof.
  intros Hne Hover Hu Hc. unfold insert, evict, bind.
  destruct (Cache_cache self) as [|kv rest] eqn:Ec; [congruence|].
  rewrite Hu. apply Z.ltb_lt in Hover. rewrite Hover. rewrite Hc. reflexivity.
Qed.

Lemma none_victim_raises_KeyError_witness :
  let self := fst one_small_read in
  let w := snd one_small_read in
  let key := mkCacheKey 8 B8 in
  let w1 := snd (update_internal_cache (Cache_evictor self) (Cache_cache self) key w) in
  let w2 := snd (choose_victim (Cache_evictor self) (Cache_cache self) w1) in
  insert self key (firstn 8 (skipn 8 file_128)) w = (Raise KeyError, w2) /\
  fst (get self 8 B8 w) = Raise KeyError.
Proof.
  intros self w key w1 w2. split; [|vm_compute; reflexivity].
  apply (none_victim_raises_KeyError self key _ w w1 w2).
  - vm_compute; discriminate.
  - vm_compute; reflexivity.
  - apply (returned_eq (update_internal_cache (Cache_evictor self)
                          (Cache_cache self) key w) tt).
    vm_compute; reflexivity.
  - apply (returned_eq (choose_victim (Cache_evictor self) (Cache_cache self) w1)
             None).
    vm_compute; reflexivity.
Defined.

(** ** Victim selection can fail *)

Lemma LFU_choose_victim_empty_raises :
  fst (choose_victim lfu_evictor [] test_world) = Raise ValueError.
Proof. vm_compute; reflexivity. Qed.

(** C9.  [choose_victim] of the hot-block policy does not complete on a
    one-entry mapping whose entry was last accessed a minute ago: no key is
    hot, [victim] stays [None], and [del self.hot_blocks[victim]] raises
    [KeyError]; the [get] that needs the eviction raises with it. *)
Theorem hot_block_choose_victim_raises :
  let self := fst one_small_read_hot in
  let w := snd one_small_read_hot in
  dict_keys (Cache_cache self) = [mkCacheKey 0 B8] /\
  Cache_evictor self = hot_block_evictor /\
  fst (choose_victim hot_block_evictor (Cache_cache self) w) = Raise KeyError /\
  fst (get self 8 B8 w) = Raise KeyError.
Proof. repeat split; vm_compute; reflexivity. Qed.

(** ** Framing: what the policies leave alone *)

Section Frame.
Context {T : Type} (f : World -> T).
Hypothesis f_time : preserves f time_time.
Hypothesis f_store : forall a o, preserves f (store a o).

Lemma preserves_ret {A} (a : A) : preserves f (ret a).
Proof. intros w; reflexivity. Qed.

Lemma preserves_raise {A} e : preserves f (@raise A e).
Proof. intros w; reflexivity. Qed.

Lemma preserves_bind {A B} (m : M A) (k : A -> M B) :
  preserves f m -> (forall a, preserves f (k a)) -> preserves f (bind m k).
Proof.
  intros Hm Hk w. unfold bind. specialize (Hm w).
  destruct (m w) as [[a|e] w1]; simpl in *; [|assumption].
  rewrite (Hk a w1); assumption.
Qed.

Lemma preserves_for_each {A B} (l : list A) (body : B -> A -> M B) :
  (forall acc x, preserves f (body acc x)) ->
  forall acc, preserves f (for_each l body acc).
Proof.
  intros Hb. induction l as [|x l IH]; intros acc; simpl.
  - apply preserves_ret.
  - apply preserves_bind; auto.
Qed.

Lemma preserves_load a : preserves f (load a).
Proof. intros w; reflexivity. Qed.

Lemma preserves_get_set_order : preserves f get_set_order.
Proof. intros w; reflexivity. Qed.

Lemma preserves_get_disk : preserves f get_disk.
Proof. intros w; reflexivity. Qed.

Lemma preserves_get_platform : preserves f get_platform.
Proof. intros w; reflexivity. Qed.

Lemma preserves_lift {A} (o : outcome A) : preserves f (lift o).
Proof. destruct o; [apply preserves_ret|apply preserves_raise]. Qed.

Ltac frame :=
  repeat first
    [ apply preserves_ret | apply preserves_raise | apply f_time
    | apply f_store | apply preserves_load | apply preserves_get_set_order
    | apply preserves_get_disk | apply preserves_get_platform
    | apply preserves_lift
    | apply preserves_bind; [|intros ?]
    | apply preserves_for_each; intros ? ?
    | match goal with
      | |- preserves _ (match ?x with _ => _ end) => destruct x
      | |- preserves _ (if ?b then _ else _) => destruct b
      end ].

Lemma preserves_choose_victim addr cache : preserves f (choose_victim addr cache).
Proof.
  unfold choose_victim. apply preserves_bind; [apply preserves_load|].
  intros [|o|o| |o|o].
  - frame.
  - unfold LFUDADecayFactorEvictor_choose_victim; frame.
  - unfold LFUDAEvictor_choose_victim, LFUDA_combined_scores,
      LFUDA_combined_score; frame.
  - unfold LRUEvictor_choose_victim; frame.
  - unfold LFUEvictor_choose_victim; frame.
  - unfold HotBlockEvictor_choose_victim, recently_accessed; frame.
Qed.

(** The body of [update_internal_cache] behind the ghost log. *)
Lemma preserves_update_body addr cache key :
  preserves f
    (o <- load addr ;;
     match o with
     | IsLFUDADecayFactorEvictor self =>
         LFUDADecayFactorEvictor_update_internal_cache addr self cache key
     | IsLFUDAEvictor self =>
         LFUDAEvictor_update_internal_cache addr self cache key
     | IsEvictionPolicy | IsLRUEvictor | IsLFUEvictor _ | IsHotBlockEvictor _ =>
         ret tt
     end).
Proof.
  apply preserves_bind; [apply preserves_load|].
  intros [|o|o| |o|o];
    unfold LFUDADecayFactorEvictor_update_internal_cache,
      LFUDAEvictor_update_internal_cache; frame.
Qed.

Lemma preserves_read_from_file offset size path :
  preserves f (read_from_file offset size path).
Proof. unfold read_from_file; frame. Qed.
End Frame.

Lemma hook_log_time : preserves hook_log time_time.
Proof. intros w; reflexivity. Qed.

Lemma hook_log_store a o : preserves hook_log (store a o).
Proof. intros w; reflexivity. Qed.

Lemma disk_time : preserves disk time_time.
Proof. intros w; reflexivity. Qed.

Lemma disk_store a o : preserves disk (store a o).
Proof. intros w; reflexivity. Qed.

Lemma preserves_eq {T A} (f : World -> T) (m : M A) w x w' :
  preserves f m -> m w = (x, w') -> f w' = f w.
Proof. intros H E. specialize (H w). rewrite E in H. exact H. Qed.

(** [update_internal_cache] always returns, and logs exactly one call. *)
Lemma update_internal_cache_log addr cache key w :
  exists w', update_internal_cache addr cache key w = (Ret tt, w') /\
             hook_log w' = hook_log w ++ [(addr, key)].
Proof.
  unfold update_internal_cache.
  unfold bind at 1. unfold log_hook at 1.
  match goal with |- context [bind (load addr) ?k ?w0] =>
    pose proof (preserves_update_body hook_log hook_log_time hook_log_store
                  addr cache key w0) as Hp;
    destruct (bind (load addr) k w0) as [[[]|e] w'] eqn:E
  end.
  - exists w'; split; [reflexivity|]. simpl in Hp. exact Hp.
  - exfalso. revert E. unfold bind, load; simpl.
    destruct (heap w addr) as [|o|o| |o|o]; try discriminate;
      unfold LFUDADecayFactorEvictor_update_internal_cache,
        LFUDAEvictor_update_internal_cache, bind, store, time_time; simpl;
      discriminate.
Qed.

(** ** The access-recording hook *)

Lemma evict_log self d key w x w' :
  evict self d key w = (x, w') ->
  hook_log w' = hook_log w ++ hook_calls self key.
Proof.
  unfold evict, hook_calls.
  destruct (Cache_cache self) as [|kv rest] eqn:Ec.
  - intros H; inversion H; subst. symmetry; apply app_nil_r.
  - rewrite <- Ec.
    destruct (update_internal_cache_log (Cache_evictor self) (Cache_cache self)
                key w) as (w1 & Hu & Hl).
    unfold bind at 1. rewrite Hu.
    destruct (Cache_max_size self <? Cache_size self + len d).
    + unfold bind.
      pose proof (preserves_choose_victim hook_log hook_log_time hook_log_store
                    (Cache_evictor self) (Cache_cache self) w1) as Hp.
      destruct (choose_victim (Cache_evictor self) (Cache_cache self) w1)
        as [[[k|]|e] w2]; simpl in Hp.
      * destruct (dict_get (Cache_cache self) k); intros H; inversion H; subst;
          congruence.
      * intros H; inversion H; subst; congruence.
      * intros H; inversion H; subst; congruence.
    + intros H; inversion H; subst; congruence.
Qed.

Lemma insert_log self key d w x w' :
  insert self key d w = (x, w') ->
  hook_log w' = hook_log w ++ hook_calls self key.
Proof.
  unfold insert, bind.
  destruct (evict self d key w) as [[self1|e] w1] eqn:Ee;
    apply evict_log in Ee; intros H; inversion H; subst; simpl; auto.
Qed.

Lemma insert_and_respond_log self key offset size w r self' w' :
  insert_and_respond self key offset size w = (Ret (r, self'), w') ->
  is_hit r = false /\ hook_log w' = hook_log w ++ hook_calls self key.
Proof.
  unfold insert_and_respond; intros H; inv_M.
  apply insert_log in Hm0.
  pose proof (preserves_eq hook_log _ _ _ _
                (preserves_read_from_file hook_log offset size
                   (Cache_file_path self)) Hm) as Hr.
  split; [reflexivity|congruence].
Qed.

(** C5 (amended).  An insertion performed by [get] invokes the policy's
    access-recording hook for the inserted key exactly once when the mapping is
    non-empty at the moment of insertion, and not at all when it is empty. *)
Theorem hook_called_once_unless_empty self offset size w r self' w' :
  get self offset size w = (Ret (r, self'), w') ->
  is_hit r = false ->
  hook_log w' = hook_log w ++ hook_calls self (mkCacheKey offset size).
Proof.
  unfold get. intros H Hmiss.
  destruct (dict_get (Cache_cache self) (mkCacheKey offset size)) as [v|].
  - inv_M. discriminate.
  - destruct size.
    + apply insert_and_respond_log in H; tauto.
    + inv_M. destruct (is_truthy a).
      * inv_M. discriminate.
      * unfold check_and_retrieve_consecutive_blocks in Hm.
        destruct (consecutive_loop (Cache_cache self) 8 offset []);
          [|discriminate].
        inv_M. apply insert_and_respond_log in Hk; tauto.
Qed.

Lemma hook_called_once_unless_empty_witness :
  let self := fst (state_after (Cache_init "data.bin" (Some 16) None)
                     [(0, B8)] test_world) in
  let w := snd (state_after (Cache_init "data.bin" (Some 16) None)
                  [(0, B8)] test_world) in
  hook_log (snd (get self 8 B8 w))
  = hook_log w ++ [(lFUDADecayFactorEvictor, mkCacheKey 8 B8)].
Proof.
  intros self w.
  evaluate (get self 8 B8 w) E.
  apply (hook_called_once_unless_empty self 8 B8 w _ _ _ E).
  reflexivity.
Defined.

(** C5 as stated fails: the first insertion into an empty store returns a miss
    and the hook has not been called. *)
Lemma hook_skipped_on_empty_mapping :
  ~ (forall self offset size w r self' w',
       get self offset size w = (Ret (r, self'), w') ->
       is_hit r = false ->
       hook_log w' = hook_log w ++ [(Cache_evictor self, mkCacheKey offset size)]).
Proof.
  intros H.
  evaluate (get (Cache_init "data.bin" None None) 0 B8 test_world) E.
  specialize (H _ _ _ _ _ _ _ E eq_refl).
  vm_compute in H. discriminate.
Qed.

(** ** Buffer lengths *)

Lemma disk_update_internal_cache addr cache key :
  preserves disk (update_internal_cache addr cache key).
Proof.
  intros w. unfold update_internal_cache. unfold bind at 1, log_hook at 1.
  match goal with |- context [bind (load addr) ?k ?w0] =>
    exact (preserves_update_body disk disk_time disk_store addr cache key w0)
  end.
Qed.

Lemma disk_evict self d key : preserves disk (evict self d key).
Proof.
  unfold evict. destruct (Cache_cache self) as [|kv rest].
  - apply preserves_ret.
  - apply preserves_bind; [apply disk_update_internal_cache|intros _].
    destruct (_ <? _); [|apply preserves_ret].
    apply preserves_bind;
      [apply preserves_choose_victim; [apply disk_time|apply disk_store]|].
    intros [k|]; [|apply preserves_raise].
    destruct (dict_get _ k); [apply preserves_ret|apply preserves_raise].
Qed.

Lemma disk_insert self key d : preserves disk (insert self key d).
Proof.
  unfold insert. apply preserves_bind; [apply disk_evict|intros ?].
  apply preserves_bind; [apply disk_time|intros ?; apply preserves_ret].
Qed.

Lemma disk_get self offset size : preserves disk (get self offset size).
Proof.
  assert (Hi : forall key, preserves disk (insert_and_respond self key offset size)).
  { intros key. unfold insert_and_respond.
    apply preserves_bind; [apply preserves_read_from_file|intros ?].
    apply preserves_bind; [apply disk_insert|intros ?; apply preserves_ret]. }
  unfold get. destruct (dict_get _ _).
  - apply preserves_bind; [apply disk_time|intros ?; apply preserves_ret].
  - destruct size; [apply Hi|].
    apply preserves_bind.
    + unfold check_and_retrieve_consecutive_blocks.
      destruct (consecutive_loop _ _ _ _); [apply preserves_ret|apply preserves_raise].
    + intros o. destruct (is_truthy o); [apply preserves_ret|apply Hi].
Qed.

Section FrameGet.
Context {T : Type} (f : World -> T).
Hypothesis f_time : preserves f time_time.
Hypothesis f_store : forall a o, preserves f (store a o).
Hypothesis f_log : forall a k, preserves f (log_hook a k).



End FrameGet.


Lemma evicted_file_path self self' :
  evicted self self' -> Cache_file_path self' = Cache_file_path self.
Proof. intros [|k v _]; reflexivity. Qed.

Lemma evicted_buffers_ok content self self' :
  evicted self self' -> buffers_ok content (Cache_cache self) ->
  buffers_ok content (Cache_cache self').
Proof.
  intros [|k0 v0 _] Hb; auto. intros k v Hin; simpl in Hin.
  apply In_dict_del in Hin; auto.
Qed.

Lemma read_from_file_run offset size path w :
  read_from_file offset size path w
  = (match disk w path with
     | None => Raise FileNotFoundError
     | Some content =>
         if (offset <? - 2 ^ 63) || (2 ^ 63 <=? offset) then Raise ValueError
         else if (offset <? 0) || (seek_limit (platform w) <? offset)
              then Raise OSError
              else Ret (firstn (Z.to_nat (BlockSize_value size))
                          (skipn (Z.to_nat offset) content))
     end, w).
Proof.
  unfold read_from_file, bind, get_disk, get_platform, ret, raise.
  destruct (disk w path); [|reflexivity].
  destruct (_ || _); [reflexivity|].
  destruct (_ || _); reflexivity.
Qed.


Lemma read_from_file_slice offset size path w d w' content :
  read_from_file offset size path w = (Ret d, w') ->
  disk w path = Some content ->
  0 <= offset /\ d = file_slice content (mkCacheKey offset size).
Proof.
  rewrite read_from_file_run. intros H Hd; rewrite Hd in H.
  destruct ((offset <? - 2 ^ 63) || (2 ^ 63 <=? offset)); [discriminate|].
  destruct ((offset <? 0) || (seek_limit (platform w) <? offset)) eqn:E;
    [discriminate|].
  apply orb_false_iff in E as [E _]. apply Z.ltb_ge in E.
  inversion H; subst. split; [assumption|reflexivity].
Qed.

Lemma get_buffers_ok self offset size w r self' w' content :
  get self offset size w = (Ret (r, self'), w') ->
  disk w (Cache_file_path self) = Some content ->
  buffers_ok content (Cache_cache self) ->
  buffers_ok content (Cache_cache self') /\
  Cache_file_path self' = Cache_file_path self.
Proof.
  intros H Hd Hb.
  assert (Hi : forall w r self' w',
             insert_and_respond self (mkCacheKey offset size) offset size w
             = (Ret (r, self'), w') ->
             disk w (Cache_file_path self) = Some content ->
             buffers_ok content (Cache_cache self') /\
             Cache_file_path self' = Cache_file_path self).
  { clear H Hd. intros w2 r2 s2 w2' H Hd. unfold insert_and_respond in H; inv_M.
    destruct (read_from_file_slice _ _ _ _ _ _ _ Hm Hd) as [Hoff Hsl].
    unfold insert in Hm0; inv_M.
    match goal with
    | He : evict _ _ _ _ = _ |- _ => apply evict_evicted in He; rename He into Hev
    end.
    split; [|simpl; apply evicted_file_path; assumption].
    intros k v Hin; simpl in Hin. apply In_dict_set in Hin as [Hin|Hin].
    - eapply evicted_buffers_ok; eauto.
    - inversion Hin; subst; simpl; auto. }
  unfold get in H.
  destruct (dict_get (Cache_cache self) (mkCacheKey offset size)) as [v0|] eqn:Eg.
  - inv_M. split; [|reflexivity]. intros k v Hin; simpl in Hin.
    apply In_dict_set in Hin as [Hin|Hin]; auto.
    inversion Hin; subst; simpl. apply dict_get_In in Eg. apply (Hb _ _ Eg).
  - destruct size; [eauto|].
    inv_M. unfold check_and_retrieve_consecutive_blocks in Hm.
    destruct (consecutive_loop (Cache_cache self) 8 offset []); [|discriminate].
    inv_M. destruct (is_truthy a); [inv_M; auto|eauto].
Qed.

Lemma run_gets_buffers_ok content calls : forall self w trace,
  disk w (Cache_file_path self) = Some content ->
  buffers_ok content (Cache_cache self) ->
  run_gets self calls w = Some trace ->
  Forall (fun x => buffers_ok content (Cache_cache (snd (fst x)))) trace.
Proof.
  induction calls as [|[offset size] calls IH]; simpl; intros self w trace Hd Hb H.
  - inversion H; constructor.
  - destruct (get self offset size w) as [[[r self']|e] w'] eqn:Eg; [|discriminate].
    destruct (run_gets self' calls w') as [rest|] eqn:Er; [|discriminate].
    inversion H; subst; clear H.
    destruct (get_buffers_ok _ _ _ _ _ _ _ _ Eg Hd Hb) as [Hb' Hp].
    pose proof (preserves_eq disk _ _ _ _ (disk_get self offset size) Eg) as Hd'.
    constructor; simpl; auto.
    apply (IH self' w' rest); auto. rewrite Hp, Hd'; assumption.
Qed.

Lemma file_slice_len content k :
  0 <= key_offset k ->
  len (file_slice content k) <= BlockSize_value (key_size k) /\
  (key_offset k + BlockSize_value (key_size k) <= len content ->
   len (file_slice content k) = BlockSize_value (key_size k)).
Proof.
  intros Hoff. unfold file_slice, len.
  rewrite length_firstn, length_skipn.
  assert (0 < BlockSize_value (key_size k)) by (destruct (key_size k); simpl; lia).
  split; intros; lia.
Qed.

(** C6 (amended).  The store does not reject a short read: the buffer is
    cached as read.  After any call, every resident buffer is at most as long
    as its key's granularity, and exactly as long when the backing file holds
    that many bytes from the key's offset. *)
Theorem resident_buffers_at_most_block_size
    file_path max_size evictor calls w trace content :
  disk w file_path = Some content ->
  run_gets (Cache_init file_path max_size evictor) calls w = Some trace ->
  Forall (fun x => forall k v, In (k, v) (Cache_cache (snd (fst x))) ->
            len (data v) <= BlockSize_value (key_size k) /\
            (key_offset k + BlockSize_value (key_size k) <= len content ->
             len (data v) = BlockSize_value (key_size k)))
         trace.
Proof.
  intros Hd H.
  apply (run_gets_buffers_ok content) in H; simpl; auto.
  - eapply Forall_impl; [|exact H]. intros [[r self] w1] Hb k v Hin; simpl in *.
    destruct (Hb k v Hin) as [Hoff ->]. apply file_slice_len; assumption.
  - intros k v [].
Qed.

Lemma resident_buffers_at_most_block_size_witness :
  exists trace,
    run_gets (Cache_init "data.bin" None None) [(0, B8); (124, B8); (100, B64)]
             test_world = Some trace /\
    Forall (fun x => forall k v, In (k, v) (Cache_cache (snd (fst x))) ->
              len (data v) <= BlockSize_value (key_size k) /\
              (key_offset k + BlockSize_value (key_size k) <= len file_128 ->
               len (data v) = BlockSize_value (key_size k)))
           trace.
Proof.
  destruct (defined_ex
              (run_gets (Cache_init "data.bin" None None)
                 [(0, B8); (124, B8); (100, B64)] test_world))
    as [trace E]; [vm_compute; reflexivity|].
  exists trace; split; [exact E|].
  apply (resident_buffers_at_most_block_size "data.bin" None None
           [(0, B8); (124, B8); (100, B64)] test_world trace file_128).
  - reflexivity.
  - exact E.
Defined.

(** C6 as stated fails: a read of 8 bytes at offset 124 of a 128-byte file
    returns 4 bytes, which enter the mapping under a small-granularity key. *)
Lemma short_read_is_cached :
  ~ (forall file_path max_size evictor calls w trace,
       run_gets (Cache_init file_path max_size evictor) calls w = Some trace ->
       Forall (fun x => forall k v, In (k, v) (Cache_cache (snd (fst x))) ->
                 len (data v) = BlockSize_value (key_size k))
              trace).
Proof.
  intros H.
  set (c := Cache_init "data.bin" None None).
  evaluate (get c 124 B8 test_world) E.
  pose proof (H "data.bin"%string None None [(124, B8)] test_world _
                (run_gets_one c _ _ _ _ _ _ E)) as H1.
  inversion H1 as [|x l Hx _]; subst.
  specialize (Hx (mkCacheKey 124 B8) _ (or_introl eq_refl)).
  vm_compute in Hx. discriminate.
Qed.

(** ** Selecting the minimum score *)

Lemma Qltb_lt x y : Qltb x y = true <-> (x < y)%Q.
Proof.
  unfold Qltb. rewrite negb_true_iff. split.
  - intros H. apply Qnot_le_lt. intros Hle.
    apply Qle_bool_iff in Hle. congruence.
  - intros H. destruct (Qle_bool y x) eqn:E; [|reflexivity].
    apply Qle_bool_iff in E. exfalso; eapply Qlt_not_le; eauto.
Qed.

Lemma not_Qltb_le a b : Qltb a b = false -> (b <= a)%Q.
Proof.
  intros H. apply Qnot_lt_le. intros Hlt. apply Qltb_lt in Hlt. congruence.
Qed.

Lemma pyfloat_ltb_irrefl x : pyfloat_ltb x x = false.
Proof.
  destruct x as [q| | |]; simpl; try reflexivity.
  destruct (Qltb q q) eqn:E; [|reflexivity].
  apply Qltb_lt in E. exfalso; eapply Qlt_irrefl; eauto.
Qed.

Lemma pyfloat_ltb_trans x y z :
  pyfloat_ltb x y = true -> pyfloat_ltb y z = true -> pyfloat_ltb x z = true.
Proof.
  destruct x as [a| | |], y as [b| | |], z as [c| | |]; simpl; try congruence.
  rewrite !Qltb_lt. apply Qlt_trans.
Qed.

(** Nothing gets below a bound by being compared with a smaller bound. *)
Lemma pyfloat_not_ltb_down x m m' :
  pyfloat_ltb x m = false -> pyfloat_ltb m' m = true -> pyfloat_ltb x m' = false.
Proof.
  intros H1 H2. destruct (pyfloat_ltb x m') eqn:E; [|reflexivity].
  rewrite (pyfloat_ltb_trans _ _ _ E H2) in H1. discriminate.
Qed.

(** What is below a bound is below everything that is not below the bound,
    [nan] apart. *)
Lemma pyfloat_ltb_below x m s :
  pyfloat_ltb s x = false -> pyfloat_ltb m x = true ->
  pyfloat_ltb m s = true \/ s = NaN.
Proof.
  destruct x as [a| | |], m as [b| | |], s as [c| | |]; simpl;
    try discriminate; auto.
  intros H1 H2. left. apply not_Qltb_le in H1. apply Qltb_lt in H2.
  apply Qltb_lt. eapply Qlt_le_trans; eauto.
Qed.

(** The selection loop keeps the first of the resident keys with the least
    score: every resident key before it scores strictly more (or [nan]), no
    resident key after it scores strictly less. *)
Lemma min_fold_first cache scores : forall v0 m0 v m,
  fold_left (min_step cache) scores (v0, m0) = (v, m) ->
  (v = v0 /\ m = m0 /\
   forall k s, In (k, s) scores -> dict_mem cache k = true ->
               pyfloat_ltb s m0 = false) \/
  (exists k before after,
     v = Some k /\ scores = before ++ (k, m) :: after /\
     dict_mem cache k = true /\ pyfloat_ltb m m0 = true /\
     (forall k' s', In (k', s') before -> dict_mem cache k' = true ->
                    pyfloat_ltb m s' = true \/ s' = NaN) /\
     (forall k' s', In (k', s') after -> dict_mem cache k' = true ->
                    pyfloat_ltb s' m = false)).
Proof.
  induction scores as [|[k1 s1] scores IH]; simpl; intros v0 m0 v m H.
  - inversion H; subst. left. repeat split. intros ? ? [].
  - destruct (dict_mem cache k1 && pyfloat_ltb s1 m0) eqn:E.
    + apply andb_true_iff in E as [Er El].
      destruct (IH _ _ _ _ H)
        as [(-> & -> & Hall)
           |(k & before & after & -> & -> & Hr & Hlt & Hb & Ha)].
      * right. exists k1, [], scores.
        repeat split; auto; intros ? ? [].
      * right. exists k, ((k1, s1) :: before), after.
        split; [reflexivity|]. split; [reflexivity|]. split; [assumption|].
        split; [eapply pyfloat_ltb_trans; eauto|]. split; [|assumption].
        intros k' s' [Heq|Hin] Hr'; [|eauto].
        inversion Heq; subst. left; assumption.
    + destruct (IH _ _ _ _ H)
        as [(-> & -> & Hall)
           |(k & before & after & -> & -> & Hr & Hlt & Hb & Ha)].
      * left. repeat split. intros k s [Heq|Hin] Hr; [|eauto].
        inversion Heq; subst. rewrite Hr in E. exact E.
      * right. exists k, ((k1, s1) :: before), after.
        split; [reflexivity|]. split; [reflexivity|]. split; [assumption|].
        split; [assumption|]. split; [|assumption].
        intros k' s' [Heq|Hin] Hr'; [|eauto].
        inversion Heq; subst. rewrite Hr' in E.
        apply (pyfloat_ltb_below m0); assumption.
Qed.

Lemma min_loop_first cache scores :
  match fst (min_loop cache scores) with
  | Some k =>
      dict_mem cache k = true /\
      exists m before after,
        scores = before ++ (k, m) :: after /\
        pyfloat_ltb m PInf = true /\
        (forall k' s', In (k', s') before -> dict_mem cache k' = true ->
                       pyfloat_ltb m s' = true \/ s' = NaN) /\
        (forall k' s', In (k', s') after -> dict_mem cache k' = true ->
                       pyfloat_ltb s' m = false)
  | None =>
      forall k' s', In (k', s') scores -> dict_mem cache k' = true ->
                    pyfloat_ltb s' PInf = false
  end.
Proof.
  unfold min_loop.
  destruct (fold_left (min_step cache) scores (None, PInf)) as [v m] eqn:E.
  destruct (min_fold_first _ _ _ _ _ _ E)
    as [(-> & -> & Hall)|(k & before & after & -> & -> & Hr & Hlt & Hb & Ha)];
    cbn [fst].
  - exact Hall.
  - split; [assumption|]. exists m, before, after. auto.
Qed.

(** ** The decayed-recency policy *)

Lemma dict_get_set_same {V} (d : dict V) k v : dict_get (dict_set d k v) k = Some v.
Proof.
  induction d as [|[k0 v0] d IH]; simpl.
  - rewrite CacheKey_eqb_refl; reflexivity.
  - destruct (CacheKey_eqb k k0) eqn:E; simpl; rewrite E; auto.
Qed.

Lemma dict_get_set_other {V} (d : dict V) k k' v :
  k' <> k -> dict_get (dict_set d k v) k' = dict_get d k'.
Proof.
  intros Hne. induction d as [|[k0 v0] d IH]; simpl.
  - destruct (CacheKey_eqb k' k) eqn:E; [|reflexivity].
    apply CacheKey_eqb_eq in E; contradiction.
  - destruct (CacheKey_eqb k k0) eqn:E; simpl.
    + apply CacheKey_eqb_eq in E; subst k0.
      destruct (CacheKey_eqb k' k) eqn:E'; [|reflexivity].
      apply CacheKey_eqb_eq in E'; contradiction.
    + rewrite IH; reflexivity.
Qed.





Lemma deque_append_lastn q x :
  dq_maxlen q = 10%nat -> (List.length (dq_items q) <= 10)%nat ->
  deque_append q x = mkdeque (lastn 10 (dq_items q ++ [x])) 10.
Proof.
  intros Hm Hl. unfold deque_append, lastn. rewrite Hm.
  rewrite length_app; simpl.
  destruct (List.length (dq_items q) <? 10)%nat eqn:E.
  - apply Nat.ltb_lt in E.
    replace (List.length (dq_items q) + 1 - 10)%nat with 0%nat by lia.
    reflexivity.
  - apply Nat.ltb_ge in E.
    replace (List.length (dq_items q) + 1 - 10)%nat with 1%nat by lia.
    destruct (dq_items q) as [|t ts]; [simpl in E; lia|reflexivity].
Qed.

Lemma lastn_length {A} n (l : list A) : (List.length (lastn n l) <= n)%nat.
Proof. unfold lastn. rewrite length_skipn. lia. Qed.

(** [update_internal_cache] of the decayed-recency policy. *)
Lemma decay_update_spec addr self cache key w :
  decay_wf self ->
  exists w' self',
    LFUDADecayFactorEvictor_update_internal_cache addr self cache key w
      = (Ret tt, w') /\
    heap w' addr = IsLFUDADecayFactorEvictor self' /\
    decay_wf self' /\
    decay_factor self' = decay_factor self /\
    dict_get (recent_accesses self') key
      = Some (mkdeque (lastn 10 (queue_items self key ++ [clock w (ticks w)])) 10) /\
    (forall k', k' <> key ->
                dict_get (recent_accesses self') k' = dict_get (recent_accesses self) k').
Proof.
  intros [Hmax Hq].
  unfold LFUDADecayFactorEvictor_update_internal_cache, queue_items, dict_mem.
  unfold bind, store, time_time; simpl.
  destruct (dict_get (recent_accesses self) key) as [q|] eqn:Eg.
  - rewrite Eg. destruct (Hq _ _ (dict_get_In _ _ _ Eg)) as [Hm Hl].
    do 2 eexists. split; [reflexivity|]. simpl. rewrite Nat.eqb_refl.
    split; [reflexivity|]. simpl.
    rewrite (deque_append_lastn _ _ Hm Hl).
    split; [|split; [reflexivity|split]].
    + split; [assumption|]. intros k q' Hin.
      apply In_dict_set in Hin as [Hin|Hin]; [exact (Hq _ _ Hin)|].
      inversion Hin; subst; simpl. split; [reflexivity|apply lastn_length].
    + apply dict_get_set_same.
    + intros k' Hne. apply dict_get_set_other; assumption.
  - rewrite dict_get_set_same.
    do 2 eexists. split; [reflexivity|]. simpl. rewrite Nat.eqb_refl.
    split; [reflexivity|]. simpl. rewrite Hmax.
    split; [|split; [reflexivity|split]].
    + split; [reflexivity|]. simpl. intros k q' Hin.
      apply In_dict_set in Hin as [Hin|Hin].
      * apply In_dict_set in Hin as [Hin|Hin]; [exact (Hq _ _ Hin)|].
        inversion Hin; subst; simpl. split; [reflexivity|lia].
      * inversion Hin; subst; simpl. split; [reflexivity|lia].
    + rewrite dict_get_set_same. reflexivity.
    + intros k' Hne. rewrite !dict_get_set_other; auto.
Qed.




(** Scores that differ as real numbers can be the same binary64 number: at
    the clock reading [2^60] the queues [101] and [100] both score [2^-61],
    and the strict comparison keeps the key that was scored first. *)
Lemma decay_tie_keeps_first_key :
  spec_recency_score exact_power (1 # 2) (inject_Z (2 ^ 60)) (mkCacheKey 0 B8)
    [inject_Z 101]
  = spec_recency_score exact_power (1 # 2) (inject_Z (2 ^ 60)) (mkCacheKey 8 B8)
      [inject_Z 100] /\
  fst (LFUDADecayFactorEvictor_choose_victim decay_tie two_small_blocks late_world)
  = Ret (Some (mkCacheKey 0 B8)).
Proof. split; vm_compute; reflexivity. Qed.


(** ** The frequency+recency policy *)















(** The score of the large block of [lfuda_example] at the clock readings 100
    and 101: [(1 + 1 / (101 - 99)) / 8], which is 3/16. *)
Lemma large_score_is_three_sixteenths :
  exists q,
    fst (LFUDA_combined_score lfuda_example (mkCacheKey 0 B64) 1 test_world)
    = Ret (Fin q) /\ (q == 3 # 16)%Q.
Proof.
  let v := eval vm_compute in
             (fst (LFUDA_combined_score lfuda_example (mkCacheKey 0 B64) 1
                     test_world)) in
  match v with
  | Ret (Fin ?q) => exists q
  end.
  split; vm_compute; reflexivity.
Qed.

(** When the clock is set back onto the recorded time between the two
    readings, the quotient [1 / (time.time() - last)] divides by zero and
    [choose_victim] raises. *)
Lemma frequency_recency_zero_division :
  fst (LFUDAEvictor_choose_victim lfuda_example two_small_blocks set_back_world)
  = Raise ZeroDivisionError.
Proof. vm_compute; reflexivity. Qed.


(** ** One policy instance behind several stores *)

(** C10.  Stores constructed without an [evictor] argument hold the address of
    the one module-level decayed-recency instance.  An insertion into store B
    records its key in that instance, and this changes the victim of a later
    insertion into store A: alone, A's three reads evict the block at offset
    8; after B has read offset 0, the same three reads evict the block at
    offset 0.  When B owns a policy instance of its own, A evicts the block at
    offset 8 as it does alone. *)
Theorem shared_default_policy_leaks_between_stores :
  (forall path1 max1 path2 max2,
     Cache_evictor (Cache_init path1 max1 None)
     = Cache_evictor (Cache_init path2 max2 None) /\
     Cache_evictor (Cache_init path1 max1 None) = lFUDADecayFactorEvictor) /\
  (exists b wb o,
     after_gets store_B calls_B test_world = Some (b, wb) /\
     heap wb (Cache_evictor store_A) = IsLFUDADecayFactorEvictor o /\
     dict_mem (recent_accesses o) (mkCacheKey 0 B8) = true /\
     heap test_world (Cache_evictor store_A)
     = IsLFUDADecayFactorEvictor (LFUDADecayFactorEvictor_init (1 # 2))) /\
  (exists a w,
     after_gets store_A calls_A test_world = Some (a, w) /\
     dict_keys (Cache_cache a) = [mkCacheKey 0 B8; mkCacheKey 16 B8]) /\
  (exists a w,
     after_gets store_A calls_A (snd (state_after store_B calls_B test_world))
     = Some (a, w) /\
     dict_keys (Cache_cache a) = [mkCacheKey 8 B8; mkCacheKey 16 B8]) /\
  (exists a w,
     after_gets store_A calls_A
       (snd (state_after store_B_private calls_B test_world_private))
     = Some (a, w) /\
     dict_keys (Cache_cache a) = [mkCacheKey 0 B8; mkCacheKey 16 B8]).
Proof.
  split; [intros; split; reflexivity|].
  split.
  { set (p := state_after store_B calls_B test_world).
    exists (fst p), (snd p).
    exists (match heap (snd p) lFUDADecayFactorEvictor with
            | IsLFUDADecayFactorEvictor o => o
            | _ => LFUDADecayFactorEvictor_init (1 # 2)
            end).
    split; [apply after_gets_state_after; vm_compute; reflexivity|].
    repeat split; vm_compute; reflexivity. }
  split; [run_after; vm_compute; reflexivity|].
  split; run_after; vm_compute; reflexivity.
Qed.

(** ** A victim, when one is returned, is resident *)

Lemma In_dict_mem {V} (d : dict V) k v : In (k, v) d -> dict_mem d k = true.
Proof.
  unfold dict_mem. induction d as [|[k0 v0] d IH]; simpl; [intros []|].
  intros [H|H].
  - inversion H; subst. rewrite CacheKey_eqb_refl; reflexivity.
  - destruct (CacheKey_eqb k k0); [reflexivity|auto].
Qed.

Lemma oldest_fold_resident cache l : forall v0 m0 k,
  (forall x, In x l -> In x cache) ->
  (forall k0, v0 = Some k0 -> dict_mem cache k0 = true) ->
  fst (fold_left oldest_step l (v0, m0)) = Some k ->
  dict_mem cache k = true.
Proof.
  induction l as [|[k1 v1] l IH]; cbn [fold_left]; intros v0 m0 k Hsub Hv0.
  - apply Hv0.
  - unfold oldest_step at 2.
    destruct (pyfloat_ltb (Fin (access_time v1)) m0); apply IH;
      try (intros x Hx; apply Hsub; right; exact Hx); auto.
    intros k2 Hk2; inversion Hk2; subst.
    apply (In_dict_mem cache k2 v1). apply Hsub; left; reflexivity.
Qed.

Lemma choose_oldest_resident cache k :
  choose_oldest cache = Some k -> dict_mem cache k = true.
Proof.
  unfold choose_oldest. apply oldest_fold_resident; [auto|discriminate].
Qed.

Lemma py_min_from_In f l : forall best k,
  py_min_from f best l = Ret k -> k = best \/ In k l.
Proof.
  induction l as [|x l IH]; simpl; intros best k H.
  - inversion H; auto.
  - destruct (py_lt_opt (f x) (f best)) as [[|]|e]; [| |discriminate].
    + destruct (IH _ _ H); auto.
    + destruct (IH _ _ H); auto.
Qed.

Lemma hottest_fold_resident cache hot : forall v0 m0 k,
  (forall k0, v0 = Some k0 -> dict_mem cache k0 = true) ->
  fst (fold_left (hottest_step cache) hot (v0, m0)) = Some k ->
  dict_mem cache k = true.
Proof.
  induction hot as [|[k1 s1] hot IH]; cbn [fold_left]; intros v0 m0 k Hv0.
  - apply Hv0.
  - unfold hottest_step at 2.
    destruct (dict_mem cache k1 && (m0 <? s1)) eqn:E; apply IH; auto.
    apply andb_true_iff in E as [E _].
    intros k2 Hk2; inversion Hk2; subst; assumption.
Qed.

Lemma hottest_resident cache hot k :
  fst (hottest cache hot) = Some k -> dict_mem cache k = true.
Proof. unfold hottest. apply hottest_fold_resident. discriminate. Qed.

(** Whatever the policy at [addr], a key that [choose_victim] returns is
    resident in the mapping it was given. *)
Lemma choose_victim_resident addr cache w k w' :
  choose_victim addr cache w = (Ret (Some k), w') -> dict_mem cache k = true.
Proof.
  unfold choose_victim. intros H. inv_M.
  destruct a as [|o|o| |o|o].
  - inv_M. discriminate.
  - unfold LFUDADecayFactorEvictor_choose_victim in Hk. inv_M.
    match goal with E : fst (min_loop cache ?sc) = Some k |- _ =>
      pose proof (min_loop_first cache sc) as Hs; rewrite E in Hs
    end.
    tauto.
  - unfold LFUDAEvictor_choose_victim in Hk. inv_M.
    match goal with E : fst (min_loop cache ?sc) = Some k |- _ =>
      pose proof (min_loop_first cache sc) as Hs; rewrite E in Hs
    end.
    tauto.
  - unfold LRUEvictor_choose_victim in Hk. inv_M.
    apply choose_oldest_resident; assumption.
  - unfold LFUEvictor_choose_victim in Hk. inv_M.
    destruct (py_min _ (dict_keys cache)) as [k0|e] eqn:Em; [|discriminate].
    inv_M. unfold py_min in Em.
    assert (Hin : In k (dict_keys cache)).
    { destruct (dict_keys cache) as [|x l]; [discriminate|].
      apply py_min_from_In in Em as [->|Hin]; simpl; auto. }
    unfold dict_keys in Hin. apply in_map_iff in Hin as ([k1 v1] & Hk1 & Hin).
    simpl in Hk1; subst. eapply In_dict_mem; eauto.
  - unfold HotBlockEvictor_choose_victim in Hk. inv_M.
    match goal with
    | Hh : match fst (hottest cache ?hot) with _ => _ end _ = _ |- _ =>
        destruct (fst (hottest cache hot)) as [v|] eqn:Eh; [|discriminate];
        apply hottest_resident in Eh;
        rewrite Eh in Hh
    end.
    inv_M. assumption.
Qed.

(** * Further properties of the store and of the policies *)

(** ** Reading the backing file *)



(** ** Hits and misses *)

Lemma dict_keys_set_present {V} (d : dict V) k v v0 :
  dict_get d k = Some v0 -> dict_keys (dict_set d k v) = dict_keys d.
Proof.
  unfold dict_keys. induction d as [|[k0 v1] d IH]; simpl; [discriminate|].
  destruct (CacheKey_eqb k k0); simpl; [reflexivity|].
  intros H; rewrite (IH H); reflexivity.
Qed.


(** The scan for eight small blocks either finds the first one missing or
    stops with [TypeError] on the first one it finds. *)
Lemma consecutive_loop_first cache offset :
  consecutive_loop cache 8 offset [] =
  if dict_mem cache (mkCacheKey offset B8) then Raise TypeError else Ret None.
Proof.
  unfold dict_mem; simpl.
  destruct (dict_get cache (mkCacheKey offset B8)); reflexivity.
Qed.

(** A hit returns the resident buffer after one clock reading and touches
    nothing but the entry's access time: the policy objects, the hook log and
    the file are as before, the key set, the size counter and the entry's hit
    count are unchanged. *)
Theorem get_hit self offset size w v :
  dict_get (Cache_cache self) (mkCacheKey offset size) = Some v ->
  exists self',
    get self offset size w = (Ret (mkCacheResponse (data v) true, self'), tick w) /\
    dict_keys (Cache_cache self') = dict_keys (Cache_cache self) /\
    Cache_size self' = Cache_size self /\
    dict_get (Cache_cache self') (mkCacheKey offset size)
      = Some (mkCacheValue (data v) (clock w (ticks w)) (hit_count v)) /\
    (forall k', k' <> mkCacheKey offset size ->
                dict_get (Cache_cache self') k' = dict_get (Cache_cache self) k').
Proof.
  intros Hg. unfold get. rewrite Hg. unfold bind, time_time, ret.
  eexists. split; [reflexivity|]. simpl.
  split; [eapply dict_keys_set_present; eauto|].
  split; [reflexivity|].
  split; [apply dict_get_set_same|].
  intros k' Hne. apply dict_get_set_other; assumption.
Qed.

Lemma get_hit_witness :
  let self := fst one_small_read in
  exists self' v,
    get self 0 B8 test_world
      = (Ret (mkCacheResponse (data v) true, self'), tick test_world) /\
    data v = firstn 8 file_128 /\
    Cache_size self' = 8.
Proof.
  intros self.
  destruct (dict_get (Cache_cache self) (mkCacheKey 0 B8)) as [v|] eqn:Eg;
    [|vm_compute in Eg; discriminate].
  destruct (get_hit self 0 B8 test_world v Eg) as (self' & Hget & _ & Hs & _).
  exists self', v. split; [exact Hget|].
  vm_compute in Eg. injection Eg as <-.
  split; [reflexivity|]. rewrite Hs. reflexivity.
Defined.

(** A returning [get] reports a hit exactly when the key was resident: the
    scan for small blocks never produces one. *)
Theorem get_is_hit_iff_resident self offset size w r self' w' :
  get self offset size w = (Ret (r, self'), w') ->
  is_hit r = dict_mem (Cache_cache self) (mkCacheKey offset size).
Proof.
  unfold get, dict_mem. intros H.
  destruct (dict_get (Cache_cache self) (mkCacheKey offset size)) as [v|].
  - inv_M. reflexivity.
  - assert (Hi : forall w r self' w',
               insert_and_respond self (mkCacheKey offset size) offset size w
               = (Ret (r, self'), w') -> is_hit r = false).
    { clear. intros w r self' w' H. apply insert_and_respond_log in H; tauto. }
    destruct size; [eauto|].
    inv_M. unfold check_and_retrieve_consecutive_blocks in Hm.
    rewrite consecutive_loop_first in Hm.
    destruct (dict_mem (Cache_cache self) (mkCacheKey offset B8));
      [discriminate|].
    inv_M. simpl in Hk. eauto.
Qed.

Lemma get_is_hit_iff_resident_witness :
  exists r self' w',
    get (Cache_init "data.bin" None None) 0 B8 test_world = (Ret (r, self'), w') /\
    is_hit r = false.
Proof.
  evaluate (get (Cache_init "data.bin" None None) 0 B8 test_world) E.
  do 3 eexists. split; [exact E|].
  rewrite (get_is_hit_iff_resident _ _ _ _ _ _ _ E). reflexivity.
Defined.

(** After a [get] that returns, the key is resident with the returned bytes. *)
Lemma get_leaves_key_resident self offset size w r self' w' :
  get self offset size w = (Ret (r, self'), w') ->
  exists v, dict_get (Cache_cache self') (mkCacheKey offset size) = Some v /\
            data v = resp_data r.
Proof.
  intros H. pose proof H as H0. unfold get in H.
  destruct (dict_get (Cache_cache self) (mkCacheKey offset size)) as [v|] eqn:Eg.
  - inv_M. eexists; split; [apply dict_get_set_same|reflexivity].
  - assert (Hi : forall w r self' w',
               insert_and_respond self (mkCacheKey offset size) offset size w
               = (Ret (r, self'), w') ->
               exists v, dict_get (Cache_cache self') (mkCacheKey offset size)
                         = Some v /\ data v = resp_data r).
    { clear. intros w r self' w' H. unfold insert_and_respond, insert in H.
      inv_M. eexists; split; [apply dict_get_set_same|reflexivity]. }
    destruct size; [eauto|].
    inv_M. unfold check_and_retrieve_consecutive_blocks in Hm.
    rewrite consecutive_loop_first in Hm.
    destruct (dict_mem (Cache_cache self) (mkCacheKey offset B8));
      [discriminate|].
    inv_M. simpl in Hk. eauto.
Qed.

(** Round trip: once a [get] has returned, the same [get] is a hit with the
    same bytes, costs one clock reading and cannot raise. *)
Theorem get_again_is_hit self offset size w r self' w' :
  get self offset size w = (Ret (r, self'), w') ->
  exists self'',
    get self' offset size w'
    = (Ret (mkCacheResponse (resp_data r) true, self''), tick w').
Proof.
  intros H. destruct (get_leaves_key_resident _ _ _ _ _ _ _ H) as (v & Hv & Hd).
  unfold get. rewrite Hv, Hd. unfold bind, time_time, ret.
  eexists. reflexivity.
Qed.

Lemma get_again_is_hit_witness :
  exists r self' w' self'',
    get (Cache_init "data.bin" None None) 0 B8 test_world = (Ret (r, self'), w') /\
    is_hit r = false /\
    get self' 0 B8 w' = (Ret (mkCacheResponse (resp_data r) true, self''), tick w').
Proof.
  evaluate (get (Cache_init "data.bin" None None) 0 B8 test_world) E.
  destruct (get_again_is_hit _ _ _ _ _ _ _ E) as (self'' & H2).
  do 4 eexists. split; [exact E|]. split; [reflexivity|exact H2].
Defined.

(** ** What a sequence of reads returns *)

Lemma get_returns_file_slice self offset size w r self' w' content :
  get self offset size w = (Ret (r, self'), w') ->
  disk w (Cache_file_path self) = Some content ->
  buffers_ok content (Cache_cache self) ->
  0 <= offset /\ resp_data r = file_slice content (mkCacheKey offset size).
Proof.
  intros H Hd Hb.
  destruct (get_buffers_ok _ _ _ _ _ _ _ _ H Hd Hb) as [Hb' _].
  destruct (get_leaves_key_resident _ _ _ _ _ _ _ H) as (v & Hv & Hdv).
  apply dict_get_In in Hv. destruct (Hb' _ _ Hv) as [Ho Hs].
  simpl in Ho. split; [assumption|]. rewrite <- Hdv. exact Hs.
Qed.

(** Read-through correctness: on a fresh store, every call of a sequence of
    [get] calls that all return answers with the bytes the file holds at the
    requested offset (as many as the file has, up to the block size), whether
    it was served from the mapping or from the file, and whatever was evicted
    in between. *)
Theorem responses_are_file_slices
    file_path max_size evictor calls w trace content :
  disk w file_path = Some content ->
  run_gets (Cache_init file_path max_size evictor) calls w = Some trace ->
  Forall2 (fun call x =>
             0 <= fst call /\
             resp_data (fst (fst x))
             = file_slice content (mkCacheKey (fst call) (snd call)))
          calls trace.
Proof.
  assert (G : forall calls self w trace,
             disk w (Cache_file_path self) = Some content ->
             buffers_ok content (Cache_cache self) ->
             run_gets self calls w = Some trace ->
             Forall2 (fun call x =>
                        0 <= fst call /\
                        resp_data (fst (fst x))
                        = file_slice content (mkCacheKey (fst call) (snd call)))
                     calls trace).
  { clear. induction calls as [|[offset size] calls IH]; simpl;
      intros self w trace Hd Hb H.
    - inversion H; constructor.
    - destruct (get self offset size w) as [[[r self']|e] w'] eqn:Eg;
        [|discriminate].
      destruct (run_gets self' calls w') as [rest|] eqn:Er; [|discriminate].
      inversion H; subst; clear H.
      destruct (get_buffers_ok _ _ _ _ _ _ _ _ Eg Hd Hb) as [Hb' Hp].
      pose proof (preserves_eq disk _ _ _ _ (disk_get self offset size) Eg) as Hd'.
      constructor.
      + simpl. eapply get_returns_file_slice; eauto.
      + apply (IH self' w' rest); auto. rewrite Hp, Hd'; assumption. }
  intros Hd H.
  apply (G calls (Cache_init file_path max_size evictor) w trace); auto.
  intros k v [].
Qed.

Lemma responses_are_file_slices_witness :
  exists trace,
    run_gets (Cache_init "data.bin" (Some 16) None)
             [(0, B8); (8, B8); (0, B8); (124, B8); (8, B8)] test_world
      = Some trace /\
    Forall2 (fun call x =>
               0 <= fst call /\
               resp_data (fst (fst x))
               = file_slice file_128 (mkCacheKey (fst call) (snd call)))
            [(0, B8); (8, B8); (0, B8); (124, B8); (8, B8)] trace.
Proof.
  destruct (defined_ex
              (run_gets (Cache_init "data.bin" (Some 16) None)
                 [(0, B8); (8, B8); (0, B8); (124, B8); (8, B8)] test_world))
    as [trace E]; [vm_compute; reflexivity|].
  exists trace; split; [exact E|].
  apply (responses_are_file_slices "data.bin" (Some 16) None
           [(0, B8); (8, B8); (0, B8); (124, B8); (8, B8)] test_world trace
           file_128).
  - reflexivity.
  - exact E.
Defined.

(** ** The hit counter *)

Lemma get_hit_count_one self offset size w r self' w' :
  get self offset size w = (Ret (r, self'), w') ->
  (forall k v, In (k, v) (Cache_cache self) -> hit_count v = 1) ->
  forall k v, In (k, v) (Cache_cache self') -> hit_count v = 1.
Proof.
  intros H Hb.
  assert (Hi : forall w r self' w',
             insert_and_respond self (mkCacheKey offset size) offset size w
             = (Ret (r, self'), w') ->
             forall k v, In (k, v) (Cache_cache self') -> hit_count v = 1).
  { clear H. intros w2 r2 s2 w2' H. unfold insert_and_respond, insert in H; inv_M.
    match goal with
    | He : evict _ _ _ _ = _ |- _ => apply evict_evicted in He; rename He into Hev
    end.
    intros k v Hin; simpl in Hin. apply In_dict_set in Hin as [Hin|Hin].
    - destruct Hev as [|k0 v0 _]; [eauto|].
      simpl in Hin. apply In_dict_del in Hin. eauto.
    - inversion Hin; subst; reflexivity. }
  unfold get in H.
  destruct (dict_get (Cache_cache self) (mkCacheKey offset size)) as [v0|] eqn:Eg.
  - inv_M. intros k v Hin; simpl in Hin.
    apply In_dict_set in Hin as [Hin|Hin]; [eauto|].
    inversion Hin; subst; simpl. apply dict_get_In in Eg. eauto.
  - destruct size; [eauto|].
    inv_M. unfold check_and_retrieve_consecutive_blocks in Hm.
    destruct (consecutive_loop (Cache_cache self) 8 offset []); [|discriminate].
    inv_M. destruct (is_truthy a); [inv_M; auto|eauto].
Qed.

(** The hit counter is never incremented: after every call of a sequence of
    [get] calls on a fresh store, hits included, each resident entry still
    has the [hit_count] 1 it was created with. *)
Theorem hit_count_stays_one file_path max_size evictor calls w trace :
  run_gets (Cache_init file_path max_size evictor) calls w = Some trace ->
  Forall (fun x => forall k v, In (k, v) (Cache_cache (snd (fst x))) ->
                               hit_count v = 1)
         trace.
Proof.
  assert (G : forall calls self w trace,
             (forall k v, In (k, v) (Cache_cache self) -> hit_count v = 1) ->
             run_gets self calls w = Some trace ->
             Forall (fun x => forall k v, In (k, v) (Cache_cache (snd (fst x))) ->
                                          hit_count v = 1) trace).
  { clear. induction calls as [|[offset size] calls IH]; simpl;
      intros self w trace Hb H.
    - inversion H; constructor.
    - destruct (get self offset size w) as [[[r self']|e] w'] eqn:Eg;
        [|discriminate].
      destruct (run_gets self' calls w') as [rest|] eqn:Er; [|discriminate].
      inversion H; subst; clear H.
      pose proof (get_hit_count_one _ _ _ _ _ _ _ Eg Hb) as Hb'.
      constructor; [exact Hb'|]. apply (IH self' w' rest); auto. }
  intros H.
  apply (G calls (Cache_init file_path max_size evictor) w trace); auto.
  intros k v [].
Qed.

Lemma hit_count_stays_one_witness :
  exists trace,
    run_gets (Cache_init "data.bin" (Some 16) None)
             [(0, B8); (0, B8); (0, B8); (8, B8)] test_world = Some trace /\
    Forall (fun x => forall k v, In (k, v) (Cache_cache (snd (fst x))) ->
                                 hit_count v = 1)
           trace.
Proof.
  destruct (defined_ex
              (run_gets (Cache_init "data.bin" (Some 16) None)
                 [(0, B8); (0, B8); (0, B8); (8, B8)] test_world))
    as [trace E]; [vm_compute; reflexivity|].
  exists trace; split; [exact E|].
  apply (hit_count_stays_one "data.bin" (Some 16) None
           [(0, B8); (0, B8); (0, B8); (8, B8)] test_world).
  exact E.
Defined.

(** ** Configuration, and insertions that fit *)

(** The three fields the invariants below depend on. *)
Lemma get_keeps_bound_policy_path self offset size w r self' w' :
  get self offset size w = (Ret (r, self'), w') ->
  Cache_max_size self' = Cache_max_size self /\
  Cache_evictor self' = Cache_evictor self /\
  Cache_file_path self' = Cache_file_path self.
Proof.
  intros H.
  assert (Hi : forall w r self' w',
             insert_and_respond self (mkCacheKey offset size) offset size w
             = (Ret (r, self'), w') ->
             Cache_max_size self' = Cache_max_size self /\
             Cache_evictor self' = Cache_evictor self /\
             Cache_file_path self' = Cache_file_path self).
  { clear H. intros w2 r2 s2 w2' H. unfold insert_and_respond, insert in H; inv_M.
    match goal with
    | He : evict _ _ _ _ = _ |- _ => apply evict_evicted in He; rename He into Hev
    end.
    destruct Hev as [|k0 v0 _]; simpl; auto. }
  unfold get in H.
  destruct (dict_get (Cache_cache self) (mkCacheKey offset size)) as [v0|].
  - inv_M. simpl; auto.
  - destruct size; [eauto|].
    inv_M. destruct (is_truthy a); [inv_M; auto|eauto].
Qed.

(** A [get] that returns leaves the store's configuration as it was: the
    capacity bound, the policy it points to, the file path and the two unused
    fields. *)
Theorem get_keeps_configuration self offset size w r self' w' :
  get self offset size w = (Ret (r, self'), w') ->
  Cache_max_size self' = Cache_max_size self /\
  Cache_evictor self' = Cache_evictor self /\
  Cache_file_path self' = Cache_file_path self /\
  Cache_frequency_count self' = Cache_frequency_count self /\
  Cache_dynamic_evictor self' = Cache_dynamic_evictor self.
Proof.
  intros H.
  assert (Hi : forall w r self' w',
             insert_and_respond self (mkCacheKey offset size) offset size w
             = (Ret (r, self'), w') ->
             Cache_max_size self' = Cache_max_size self /\
             Cache_evictor self' = Cache_evictor self /\
             Cache_file_path self' = Cache_file_path self /\
             Cache_frequency_count self' = Cache_frequency_count self /\
             Cache_dynamic_evictor self' = Cache_dynamic_evictor self).
  { clear H. intros w2 r2 s2 w2' H. unfold insert_and_respond, insert in H; inv_M.
    match goal with
    | He : evict _ _ _ _ = _ |- _ => apply evict_evicted in He; rename He into Hev
    end.
    destruct Hev as [|k0 v0 _]; simpl; auto. }
  unfold get in H.
  destruct (dict_get (Cache_cache self) (mkCacheKey offset size)) as [v0|].
  - inv_M. simpl; auto.
  - destruct size; [eauto|].
    inv_M. destruct (is_truthy a); [inv_M; auto|eauto].
Qed.

Lemma get_keeps_configuration_witness :
  exists r self' w',
    get (Cache_init "data.bin" (Some 16) (Some lru_evictor)) 0 B8 test_world
      = (Ret (r, self'), w') /\
    Cache_max_size self' = 16 /\ Cache_evictor self' = lru_evictor.
Proof.
  evaluate (get (Cache_init "data.bin" (Some 16) (Some lru_evictor)) 0 B8
              test_world) E.
  destruct (get_keeps_configuration _ _ _ _ _ _ _ E) as (H1 & H2 & _).
  do 3 eexists. split; [exact E|]. split; [exact H1|exact H2].
Defined.



(** ** Capacity under reads of one size *)

(** [evict] removes an entry only when the new block would not fit. *)
Lemma evict_cases self d key w self' w' :
  evict self d key w = (Ret self', w') ->
  (self' = self /\
   (Cache_cache self = [] \/ Cache_size self + len d <= Cache_max_size self)) \/
  (Cache_max_size self < Cache_size self + len d /\
   exists k v,
     dict_get (Cache_cache self) k = Some v /\
     Cache_cache self' = dict_del (Cache_cache self) k /\
     Cache_size self' = Cache_size self - len (data v) /\
     Cache_max_size self' = Cache_max_size self).
Proof.
  unfold evict. destruct (Cache_cache self) as [|kv rest] eqn:Ec.
  - intros H; inv_M. left; auto.
  - intros H; inv_M.
    destruct (Cache_max_size self <? Cache_size self + len d) eqn:Eo.
    + apply Z.ltb_lt in Eo. inv_M.
      destruct a0 as [k|]; [|discriminate].
      destruct (dict_get (kv :: rest) k) as [v|] eqn:Eg; [|discriminate].
      inv_M. right. split; [assumption|]. exists k, v. simpl. auto.
    + apply Z.ltb_ge in Eo. inv_M. left; auto.
Qed.

(** The invariant behind the capacity bound: the counter is exact, every
    resident buffer holds 8 bytes, and the counter is within the bound. *)
Lemma get_small_keeps_capacity self offset w r self' w' content :
  get self offset B8 w = (Ret (r, self'), w') ->
  disk w (Cache_file_path self) = Some content ->
  offset + 8 <= len content ->
  8 <= Cache_max_size self ->
  size_ok self ->
  (forall k v, In (k, v) (Cache_cache self) -> len (data v) = 8) ->
  Cache_size self <= Cache_max_size self ->
  (forall k v, In (k, v) (Cache_cache self') -> len (data v) = 8) /\
  Cache_size self' <= Cache_max_size self'.
Proof.
  intros H Hd Hlen Hmax Hs H8 Hcap. unfold get in H.
  destruct (dict_get (Cache_cache self) (mkCacheKey offset B8)) as [v0|] eqn:Eg.
  - inv_M. simpl. split; [|assumption].
    intros k v Hin. apply In_dict_set in Hin as [Hin|Hin]; [eauto|].
    inversion Hin; subst; simpl. apply dict_get_In in Eg. eauto.
  - unfold insert_and_respond, insert in H. inv_M.
    destruct (read_from_file_slice _ _ _ _ _ _ _ Hm Hd) as [Hoff ->].
    assert (Hl : len (file_slice content (mkCacheKey offset B8)) = 8).
    { apply (file_slice_len content (mkCacheKey offset B8)); simpl; assumption. }
    match goal with
    | He : evict _ _ _ _ = _ |- _ => apply evict_cases in He; rename He into Hev
    end.
    simpl. rewrite Hl in *.
    destruct Hev as [[-> Hc]|(Hover & k & v & Hg & Hc & Hsz & Hm')].
    + split.
      * intros k v Hin. apply In_dict_set in Hin as [Hin|Hin]; [eauto|].
        inversion Hin; subst; simpl; assumption.
      * destruct Hc as [Hc|Hc]; [|lia].
        unfold size_ok in Hs. rewrite Hc in Hs. unfold total_len in Hs.
        simpl in Hs. lia.
    + split.
      * intros k1 v1 Hin. apply In_dict_set in Hin as [Hin|Hin].
        -- rewrite Hc in Hin. apply In_dict_del in Hin. eauto.
        -- inversion Hin; subst; simpl; assumption.
      * rewrite Hsz, Hm'. apply dict_get_In in Hg. rewrite (H8 _ _ Hg). lia.
Qed.

(** The capacity bound holds when every read is a small block that lies
    inside the file: on a fresh store of capacity at least 8, after each call
    the size counter is within [max_size]. *)
Theorem capacity_holds_for_small_reads
    file_path max_size evictor calls w trace content :
  disk w file_path = Some content ->
  8 <= Cache_max_size (Cache_init file_path max_size evictor) ->
  Forall (fun call => snd call = B8 /\ fst call + 8 <= len content) calls ->
  run_gets (Cache_init file_path max_size evictor) calls w = Some trace ->
  Forall (fun x => Cache_size (snd (fst x)) <= Cache_max_size (snd (fst x))) trace.
Proof.
  assert (G : forall calls self w trace,
             disk w (Cache_file_path self) = Some content ->
             8 <= Cache_max_size self ->
             size_ok self ->
             (forall k v, In (k, v) (Cache_cache self) -> len (data v) = 8) ->
             Cache_size self <= Cache_max_size self ->
             Forall (fun call => snd call = B8 /\ fst call + 8 <= len content) calls ->
             run_gets self calls w = Some trace ->
             Forall (fun x => Cache_size (snd (fst x)) <= Cache_max_size (snd (fst x)))
                    trace).
  { clear. induction calls as [|[offset size] calls IH]; simpl;
      intros self w trace Hd Hmax Hs H8 Hcap Hcalls H.
    - inversion H; constructor.
    - destruct (get self offset size w) as [[[r self']|e] w'] eqn:Eg;
        [|discriminate].
      destruct (run_gets self' calls w') as [rest|] eqn:Er; [|discriminate].
      inversion H; subst; clear H.
      inversion Hcalls as [|c cs [Hsz Hlen] Hrest]; subst. simpl in Hsz, Hlen.
      subst size.
      destruct (get_small_keeps_capacity _ _ _ _ _ _ _ Eg Hd Hlen Hmax Hs H8 Hcap)
        as [H8' Hcap'].
      destruct (get_keeps_bound_policy_path _ _ _ _ _ _ _ Eg) as (Hm & _ & Hp).
      pose proof (preserves_eq disk _ _ _ _ (disk_get self offset B8) Eg) as Hd'.
      constructor; [exact Hcap'|].
      apply (IH self' w' rest); auto.
      + rewrite Hp, Hd'; assumption.
      + rewrite Hm; assumption.
      + eapply get_size_ok; eauto. }
  intros Hd Hmax Hcalls H.
  apply (G calls (Cache_init file_path max_size evictor) w trace); auto.
  - reflexivity.
  - intros k v [].
  - simpl. simpl in Hmax. lia.
Qed.

Lemma capacity_holds_for_small_reads_witness :
  exists trace,
    run_gets (Cache_init "data.bin" (Some 16) (Some lru_evictor))
             [(0, B8); (8, B8); (16, B8); (0, B8); (24, B8)] test_world
      = Some trace /\
    Forall (fun x => Cache_size (snd (fst x)) <= Cache_max_size (snd (fst x))) trace.
Proof.
  destruct (defined_ex
              (run_gets (Cache_init "data.bin" (Some 16) (Some lru_evictor))
                 [(0, B8); (8, B8); (16, B8); (0, B8); (24, B8)] test_world))
    as [trace E]; [vm_compute; reflexivity|].
  exists trace; split; [exact E|].
  apply (capacity_holds_for_small_reads "data.bin" (Some 16) (Some lru_evictor)
           [(0, B8); (8, B8); (16, B8); (0, B8); (24, B8)] test_world trace
           file_128).
  - reflexivity.
  - simpl; lia.
  - repeat constructor; simpl; vm_compute; discriminate.
  - exact E.
Defined.

(** ** The least-recently-used policy *)

Lemma oldest_fold_spec l : forall v0 m0 v m,
  fold_left oldest_step l (v0, m0) = (v, m) ->
  (forall k x, In (k, x) l -> pyfloat_ltb (Fin (access_time x)) m = false) /\
  ((v = v0 /\ m = m0) \/
   (exists k x, v = Some k /\ In (k, x) l /\ m = Fin (access_time x) /\
                pyfloat_ltb m m0 = true)) /\
  (forall y, pyfloat_ltb y m0 = false -> pyfloat_ltb y m = false).
Proof.
  induction l as [|[k x] l IH]; cbn [fold_left]; intros v0 m0 v m H.
  - inversion H; subst. repeat split; auto. intros ? ? [].
  - unfold oldest_step at 2 in H.
    destruct (pyfloat_ltb (Fin (access_time x)) m0) eqn:E;
      destruct (IH _ _ _ _ H) as (H1 & H2 & H3); split; [|split| |split]; auto.
    + intros k' x' [Heq|Hin]; [|eauto].
      inversion Heq; subst. apply H3, pyfloat_ltb_irrefl.
    + right. destruct H2 as [[-> ->]|(k' & x' & -> & Hin & -> & Hl)].
      * exists k, x. repeat split; auto. left; reflexivity.
      * exists k', x'. repeat split; auto; [right; assumption|].
        eapply pyfloat_ltb_trans; eauto.
    + intros y Hy. apply H3. eapply pyfloat_not_ltb_down; eauto.
    + intros k' x' [Heq|Hin]; [|eauto].
      inversion Heq; subst. auto.
    + destruct H2 as [?|(k' & x' & -> & Hin & -> & Hl)]; auto.
      right; exists k', x'. repeat split; auto. right; assumption.
Qed.

(** [choose_oldest] returns [None] exactly on an empty mapping and otherwise
    a key of an entry whose access time is the smallest. *)
Lemma choose_oldest_spec cache :
  (choose_oldest cache = None <-> cache = []) /\
  forall k, choose_oldest cache = Some k ->
    exists v, In (k, v) cache /\
              forall k' v', In (k', v') cache ->
                            (access_time v <= access_time v')%Q.
Proof.
  unfold choose_oldest.
  destruct (fold_left oldest_step cache (None, PInf)) as [v m] eqn:E.
  destruct (oldest_fold_spec _ _ _ _ _ E) as (H1 & H2 & _). simpl.
  split.
  - split.
    + intros ->. destruct cache as [|[k x] rest]; [reflexivity|].
      destruct H2 as [[_ ->]|(k' & x' & Hv & _)]; [|discriminate].
      specialize (H1 k x (or_introl eq_refl)). discriminate.
    + intros ->. simpl in E. inversion E; reflexivity.
  - intros k ->. destruct H2 as [[Hv _]|(k' & x' & Hv & Hin & -> & _)];
      [discriminate|].
    inversion Hv; subst. exists x'. split; [assumption|].
    intros k1 v1 Hin1. specialize (H1 _ _ Hin1). simpl in H1.
    apply not_Qltb_le; assumption.
Qed.

(** The least-recently-used policy is a pure selection: whatever the world,
    [choose_victim] changes nothing, returns [None] exactly on an empty
    mapping, and otherwise returns a resident key whose access time is the
    smallest. *)
Theorem LRU_choose_victim_oldest addr cache w :
  heap w addr = IsLRUEvictor ->
  exists victim,
    choose_victim addr cache w = (Ret victim, w) /\
    (victim = None <-> cache = []) /\
    forall k, victim = Some k ->
      exists v, In (k, v) cache /\
                forall k' v', In (k', v') cache ->
                              (access_time v <= access_time v')%Q.
Proof.
  intros Hh. unfold choose_victim, bind, load. rewrite Hh.
  unfold LRUEvictor_choose_victim, ret.
  exists (choose_oldest cache). split; [reflexivity|].
  apply choose_oldest_spec.
Qed.

Lemma LRU_choose_victim_oldest_witness :
  let self := fst (state_after (Cache_init "data.bin" None (Some lru_evictor))
                     [(0, B8); (8, B8); (0, B8)] test_world) in
  exists victim,
    choose_victim lru_evictor (Cache_cache self) test_world = (Ret victim, test_world) /\
    victim = Some (mkCacheKey 8 B8).
Proof.
  intros self.
  destruct (LRU_choose_victim_oldest lru_evictor (Cache_cache self) test_world
              eq_refl) as (victim & Hc & _ & _).
  exists victim. split; [exact Hc|].
  apply (returned_inj _ _ _ _ Hc). vm_compute; reflexivity.
Defined.




(** ** The naive least-frequently-used policy *)

Lemma dict_mem_keys {V} (d : dict V) k :
  dict_mem d k = true <-> In k (dict_keys d).
Proof.
  split.
  - intros H. apply dict_mem_true in H as [v Hv]. apply dict_get_In in Hv.
    unfold dict_keys. apply in_map_iff. exists (k, v); auto.
  - unfold dict_keys. intros H. apply in_map_iff in H as ([k0 v] & Hk & Hin).
    simpl in Hk; subst. eapply In_dict_mem; eauto.
Qed.

Lemma bump_get_same d k : dict_get (bump d k) k = Some (count_of d k + 1).
Proof.
  unfold bump, count_of, dict_mem.
  destruct (dict_get d k) as [n|] eqn:E.
  - rewrite E. apply dict_get_set_same.
  - rewrite dict_get_set_same. apply dict_get_set_same.
Qed.

Lemma bump_get_other d k k' : k' <> k -> dict_get (bump d k) k' = dict_get d k'.
Proof.
  intros Hne. unfold bump, dict_mem.
  destruct (dict_get d k) as [n|] eqn:E.
  - rewrite E. apply dict_get_set_other; assumption.
  - rewrite dict_get_set_same. rewrite !dict_get_set_other; auto.
Qed.

Lemma fold_bump_other keys : forall d k,
  ~ In k keys -> dict_get (fold_left bump keys d) k = dict_get d k.
Proof.
  induction keys as [|k0 keys IH]; simpl; intros d k Hn; [reflexivity|].
  rewrite IH; [|tauto]. apply bump_get_other. intros ->; tauto.
Qed.

Lemma fold_bump_member keys : forall d k,
  NoDup keys -> In k keys ->
  dict_get (fold_left bump keys d) k = Some (count_of d k + 1).
Proof.
  induction keys as [|k0 keys IH]; simpl; intros d k Hnd Hin; [contradiction|].
  inversion Hnd as [|? ? Hn0 Hnd']; subst.
  destruct Hin as [->|Hin].
  - rewrite fold_bump_other by assumption. apply bump_get_same.
  - rewrite (IH _ _ Hnd' Hin). unfold count_of.
    rewrite bump_get_other; [reflexivity|]. intros ->; contradiction.
Qed.

Lemma py_min_from_spec f l : forall best nb,
  f best = Some nb ->
  (forall k, In k l -> exists n, f k = Some n) ->
  exists k nk,
    py_min_from f best l = Ret k /\ (k = best \/ In k l) /\
    f k = Some nk /\ nk <= nb /\
    forall k' n', In k' l -> f k' = Some n' -> nk <= n'.
Proof.
  induction l as [|x l IH]; simpl; intros best nb Hb Hall.
  - exists best, nb. repeat split; auto; [lia|]. intros ? ? [].
  - destruct (Hall x (or_introl eq_refl)) as [nx Hx].
    rewrite Hx, Hb. simpl.
    destruct (nx <? nb) eqn:E.
    + apply Z.ltb_lt in E.
      destruct (IH x nx Hx) as (k & nk & Hr & Hin & Hk & Hle & Hmin); [auto|].
      exists k, nk. split; [assumption|]. split; [destruct Hin; auto|].
      split; [assumption|]. split; [lia|].
      intros k' n' [->|Hin'] Hn'; [|eauto]. rewrite Hx in Hn'.
      inversion Hn'; subst; assumption.
    + apply Z.ltb_ge in E.
      destruct (IH best nb Hb) as (k & nk & Hr & Hin & Hk & Hle & Hmin); [auto|].
      exists k, nk. split; [assumption|]. split; [destruct Hin; auto|].
      split; [assumption|]. split; [lia|].
      intros k' n' [->|Hin'] Hn'; [|eauto]. rewrite Hx in Hn'.
      inversion Hn'; subst; lia.
Qed.

(** On a non-empty mapping the naive least-frequently-used policy always
    returns a resident key.  The call itself adds 1 to the counter of every
    resident key and leaves the other counters alone, and the key returned has
    the smallest counter among the resident keys after that increment. *)
Theorem LFU_choose_victim_counts addr self cache w :
  heap w addr = IsLFUEvictor self ->
  cache <> [] ->
  NoDup (dict_keys cache) ->
  exists k self' w',
    choose_victim addr cache w = (Ret (Some k), w') /\
    heap w' addr = IsLFUEvictor self' /\
    dict_mem cache k = true /\
    (forall k', dict_mem cache k' = true ->
       dict_get (lfu_frequency_count self') k'
       = Some (count_of (lfu_frequency_count self) k' + 1)) /\
    (forall k', dict_mem cache k' = false ->
       dict_get (lfu_frequency_count self') k'
       = dict_get (lfu_frequency_count self) k') /\
    (forall k', dict_mem cache k' = true ->
       count_of (lfu_frequency_count self') k
       <= count_of (lfu_frequency_count self') k').
Proof.
  intros Hh Hne Hnd.
  set (freq := fold_left bump (dict_keys cache) (lfu_frequency_count self)).
  assert (Hmem : forall k', In k' (dict_keys cache) ->
                   dict_get freq k'
                   = Some (count_of (lfu_frequency_count self) k' + 1)).
  { intros k' Hin. apply fold_bump_member; assumption. }
  assert (Hmin : exists k nk,
             py_min (dict_get freq) (dict_keys cache) = Ret k /\
             In k (dict_keys cache) /\ dict_get freq k = Some nk /\
             forall k' n', In k' (dict_keys cache) -> dict_get freq k' = Some n' ->
                           nk <= n').
  { unfold py_min. destruct (dict_keys cache) as [|k0 keys] eqn:Ek.
    - destruct cache; [contradiction|discriminate].
    - destruct (py_min_from_spec (dict_get freq) keys k0 _
                  (Hmem k0 (or_introl eq_refl)))
        as (k & nk & Hr & Hin & Hk & Hle & Hm).
      { intros k' Hin. eexists. apply Hmem. right; assumption. }
      exists k, nk. split; [assumption|]. split; [simpl; destruct Hin; auto|].
      split; [assumption|].
      intros k' n' [->|Hin'] Hn'; [|eauto].
      rewrite (Hmem k' (or_introl eq_refl)) in Hn'. inversion Hn'; subst; lia. }
  destruct Hmin as (k & nk & Hr & Hin & Hk & Hm).
  exists k, (mkLFUEvictor freq). eexists.
  unfold choose_victim, bind, load. rewrite Hh.
  unfold LFUEvictor_choose_victim, bind, store. fold freq. rewrite Hr.
  unfold ret. split; [reflexivity|]. cbn [heap lfu_frequency_count].
  rewrite Nat.eqb_refl. split; [reflexivity|].
  split; [apply dict_mem_keys; assumption|].
  split; [intros k' Hk'; apply Hmem, dict_mem_keys; assumption|].
  split.
  - intros k' Hk'. apply fold_bump_other. intros Hin'.
    apply dict_mem_keys in Hin'. congruence.
  - intros k' Hk'. apply dict_mem_keys in Hk'.
    unfold count_of. rewrite Hk. rewrite (Hmem _ Hk').
    apply (Hm k'); auto.
Qed.

Lemma LFU_choose_victim_counts_witness :
  let cache := Cache_cache (fst (state_after
                 (Cache_init "data.bin" None (Some lfu_evictor))
                 [(0, B8); (8, B8)] test_world)) in
  exists k self' w',
    choose_victim lfu_evictor cache test_world = (Ret (Some k), w') /\
    heap w' lfu_evictor = IsLFUEvictor self' /\
    dict_get (lfu_frequency_count self') (mkCacheKey 8 B8) = Some 1.
Proof.
  intros cache.
  destruct (LFU_choose_victim_counts lfu_evictor (mkLFUEvictor []) cache test_world)
    as (k & self' & w' & Hc & Hh & _ & Hinc & _).
  - reflexivity.
  - vm_compute; discriminate.
  - vm_compute. repeat constructor; simpl; intuition discriminate.
  - exists k, self', w'. split; [exact Hc|]. split; [exact Hh|].
    apply (Hinc (mkCacheKey 8 B8)). vm_compute; reflexivity.
Defined.

(** ** The hot-block policy *)

Lemma hottest_fold_spec cache hot : forall v0 m0 v m,
  fold_left (hottest_step cache) hot (v0, m0) = (v, m) ->
  (forall k c, In (k, c) hot -> dict_mem cache k = true -> c <= m) /\
  ((v = v0 /\ m = m0) \/
   (exists k, v = Some k /\ In (k, m) hot /\ dict_mem cache k = true /\ m0 < m)) /\
  m0 <= m.
Proof.
  induction hot as [|[k c] hot IH]; cbn [fold_left]; intros v0 m0 v m H.
  - inversion H; subst. repeat split; auto; [intros ? ? []|lia].
  - unfold hottest_step at 2 in H.
    destruct (dict_mem cache k && (m0 <? c)) eqn:E;
      destruct (IH _ _ _ _ H) as (H1 & H2 & H3).
    + apply andb_true_iff in E as [Er El]. apply Z.ltb_lt in El.
      split; [|split]; [| |lia].
      * intros k' c' [Heq|Hin] Hr; [|eauto]. inversion Heq; subst; lia.
      * right. destruct H2 as [[-> ->]|(k' & -> & Hin & Hr & Hl)].
        -- exists k. repeat split; auto. left; reflexivity.
        -- exists k'. repeat split; auto; [right; assumption|lia].
    + split; [|split]; [| |lia].
      * intros k' c' [Heq|Hin] Hr; [|eauto]. inversion Heq; subst.
        rewrite Hr in E. simpl in E. apply Z.ltb_ge in E. lia.
      * destruct H2 as [?|(k' & -> & Hin & Hr & Hl)]; auto.
        right. exists k'. repeat split; auto. right; assumption.
Qed.

Lemma ticks_on_tick n w : ticks_on n (tick w) = tick (ticks_on n w).
Proof.
  induction n as [|n IH]; cbn [ticks_on]; [reflexivity|rewrite IH; reflexivity].
Qed.

Lemma ticks_on_set_order n w : set_order (ticks_on n w) = set_order w.
Proof. induction n as [|n IH]; [reflexivity|exact IH]. Qed.

Lemma ticks_on_heap n w : heap (ticks_on n w) = heap w.
Proof. induction n as [|n IH]; [reflexivity|exact IH]. Qed.

(** The set comprehension reads the clock once per entry and collects the
    keys of the entries accessed less than the threshold ago. *)
Lemma recently_accessed_spec threshold cache : forall acc w,
  for_each cache
    (fun (acc : list CacheKey) (kv : CacheKey * CacheValue) =>
       now <- time_time ;;
       ret (if pyfloat_ltb
                 (float_value (fsub (float_of_Q now)
                                    (float_of_Q (access_time (snd kv)))))
                 (Fin threshold)
            then acc ++ [fst kv] else acc))
    acc w
  = (Ret (acc ++ recent_keys threshold (clock w) (ticks w) cache),
     ticks_on (List.length cache) w).
Proof.
  induction cache as [|[k v] cache IH]; intros acc w;
    cbn [for_each recent_keys List.length ticks_on].
  - unfold ret. rewrite app_nil_r. reflexivity.
  - unfold bind at 1. unfold bind at 1. unfold time_time at 1. unfold ret at 1.
    rewrite IH. cbn [clock ticks fst snd]. fold (tick w).
    rewrite ticks_on_tick.
    destruct (pyfloat_ltb _ _); [rewrite <- app_assoc|]; reflexivity.
Qed.

Lemma recent_keys_In threshold clk cache : forall i k,
  In k (recent_keys threshold clk i cache) -> In k (dict_keys cache).
Proof.
  induction cache as [|[k0 v0] cache IH]; intros i k; cbn [recent_keys];
    [intros []|].
  destruct (pyfloat_ltb _ _).
  - intros [->|H]; [left; reflexivity|right; exact (IH _ _ H)].
  - intros H. right; exact (IH _ _ H).
Qed.

Lemma recent_keys_NoDup threshold clk cache : forall i,
  NoDup (dict_keys cache) -> NoDup (recent_keys threshold clk i cache).
Proof.
  induction cache as [|[k0 v0] cache IH]; intros i Hnd; cbn [recent_keys];
    [constructor|].
  inversion Hnd as [|? ? Hn Hnd']; subst.
  destruct (pyfloat_ltb _ _); [|apply IH; assumption].
  constructor; [|apply IH; assumption].
  intros Hin. apply Hn. exact (recent_keys_In _ _ _ _ _ Hin).
Qed.

(** The hot-block policy evicts the hottest key.  [choose_victim] reads the
    clock once per resident entry, adds 1 to the counter of every key whose
    entry was accessed less than the threshold before its reading (a new
    counter starts from 0), leaves the other counters alone and stores the
    counters; it then returns a resident tracked key whose counter is
    positive and the largest among the resident tracked keys; when no
    resident key has a positive counter it raises [KeyError] instead of
    returning [None]. *)
Theorem HotBlock_choose_victim_hottest addr self cache w :
  heap w addr = IsHotBlockEvictor self ->
  let recent :=
    recent_keys (hot_block_threshold self) (clock w) (ticks w) cache in
  exists out w' hot',
    choose_victim addr cache w = (out, w') /\
    heap w' addr
    = IsHotBlockEvictor (mkHotBlockEvictor (hot_block_threshold self) hot') /\
    hot' = fold_left bump (set_order w recent) (hot_blocks self) /\
    (NoDup (dict_keys cache) -> Permutation recent (set_order w recent) ->
     forall k,
       (In k recent ->
        dict_get hot' k = Some (count_of (hot_blocks self) k + 1)) /\
       (~ In k recent -> dict_get hot' k = dict_get (hot_blocks self) k)) /\
    ((exists k c,
        out = Ret (Some k) /\ dict_mem cache k = true /\
        In (k, c) hot' /\ 0 < c /\
        forall k' c', In (k', c') hot' -> dict_mem cache k' = true -> c' <= c) \/
     (out = Raise KeyError /\
      forall k' c', In (k', c') hot' -> dict_mem cache k' = true -> c' <= 0)).
Proof.
  intros Hh recent.
  unfold choose_victim. unfold bind at 1. unfold load at 1. rewrite Hh.
  unfold HotBlockEvictor_choose_victim, recently_accessed.
  unfold bind at 1. rewrite recently_accessed_spec. cbn [app]. fold recent.
  unfold bind at 1. unfold get_set_order at 1. rewrite ticks_on_set_order.
  set (hot := fold_left bump (set_order w recent) (hot_blocks self)).
  assert (Hpt : NoDup (dict_keys cache) ->
                Permutation recent (set_order w recent) ->
                forall k,
                  (In k recent ->
                   dict_get hot k = Some (count_of (hot_blocks self) k + 1)) /\
                  (~ In k recent -> dict_get hot k = dict_get (hot_blocks self) k)).
  { intros Hnd Hperm k. split; intros Hin.
    - apply fold_bump_member.
      + apply (Permutation_NoDup Hperm). apply recent_keys_NoDup; exact Hnd.
      + apply (Permutation_in _ Hperm); exact Hin.
    - apply fold_bump_other. intros Hin'. apply Hin.
      apply (Permutation_in _ (Permutation_sym Hperm)); exact Hin'. }
  unfold bind at 1. unfold store at 1.
  destruct (hottest cache hot) as [v m] eqn:E. unfold hottest in E.
  destruct (hottest_fold_spec _ _ _ _ _ _ E) as (H1 & H2 & H3).
  cbn [fst].
  destruct H2 as [[-> ->]|(k & -> & Hin & Hr & Hpos)].
  - do 3 eexists. split; [reflexivity|]. cbn [heap]. rewrite Nat.eqb_refl.
    split; [reflexivity|]. split; [reflexivity|]. split; [exact Hpt|].
    right. split; [reflexivity|exact H1].
  - rewrite Hr. do 3 eexists. split; [reflexivity|]. cbn [heap].
    rewrite Nat.eqb_refl. split; [reflexivity|]. split; [reflexivity|].
    split; [exact Hpt|].
    left. exists k, m. repeat split; auto.
Qed.

Lemma HotBlock_choose_victim_hottest_witness :
  let cache := Cache_cache (fst (state_after
                 (Cache_init "data.bin" None (Some hot_block_evictor))
                 [(0, B8); (8, B8)] test_world)) in
  exists out w' hot',
    choose_victim hot_block_evictor cache test_world = (out, w') /\
    out = Ret (Some (mkCacheKey 0 B8)) /\
    heap w' hot_block_evictor = IsHotBlockEvictor (mkHotBlockEvictor 10 hot') /\
    dict_get hot' (mkCacheKey 0 B8) = Some 1 /\
    dict_get hot' (mkCacheKey 8 B8) = Some 1.
Proof.
  intros cache.
  destruct (HotBlock_choose_victim_hottest hot_block_evictor
              (mkHotBlockEvictor 10 []) cache test_world eq_refl)
    as (out & w' & hot' & Hc & Hh & _ & Hpt & _).
  assert (Hnd : NoDup (dict_keys cache)).
  { vm_compute. repeat constructor; simpl; intuition discriminate. }
  specialize (Hpt Hnd (Permutation_refl _)).
  exists out, w', hot'. split; [exact Hc|]. split.
  { assert (Hf : fst (choose_victim hot_block_evictor cache test_world)
                 = Ret (Some (mkCacheKey 0 B8))) by (vm_compute; reflexivity).
    rewrite Hc in Hf. exact Hf. }
  split; [exact Hh|]. split.
  - apply (proj1 (Hpt (mkCacheKey 0 B8))). vm_compute. auto.
  - apply (proj1 (Hpt (mkCacheKey 8 B8))). vm_compute. auto.
Defined.

(** ** Which policy objects a call can touch *)

Lemma heap_time : preserves heap time_time.
Proof. intros w; reflexivity. Qed.

Ltac frame_by base :=
  repeat first
    [ apply preserves_ret | apply preserves_raise | apply preserves_load
    | apply preserves_get_set_order | apply preserves_get_disk
    | apply preserves_get_platform | apply preserves_lift
    | base
    | apply preserves_bind; [|intros ?]
    | apply preserves_for_each; intros ? ?
    | match goal with
      | |- preserves _ (match ?x with _ => _ end) => destruct x
      | |- preserves _ (if ?b then _ else _) => destruct b
      end ].

Lemma scoring_choose_victim_preserves {T} (f : World -> T) cache :
  preserves f time_time ->
  (forall o, preserves f (LFUDADecayFactorEvictor_choose_victim o cache)) /\
  (forall o, preserves f (LFUDAEvictor_choose_victim o cache)).
Proof.
  intros Hf. split; intros o.
  - unfold LFUDADecayFactorEvictor_choose_victim. frame_by ltac:(apply Hf).
  - unfold LFUDAEvictor_choose_victim, LFUDA_combined_scores,
      LFUDA_combined_score.
    frame_by ltac:(apply Hf).
Qed.

Lemma clock_time : preserves clock time_time.
Proof. intros w; reflexivity. Qed.

(** A policy that is neither the naive least-frequently-used nor the hot-block
    one changes, in [choose_victim], nothing that reading the clock leaves
    alone. *)
Lemma choose_victim_nonstoring {T} (f : World -> T) addr cache w out w' :
  preserves f time_time ->
  (forall o, heap w addr <> IsLFUEvictor o) ->
  (forall o, heap w addr <> IsHotBlockEvictor o) ->
  choose_victim addr cache w = (out, w') ->
  f w' = f w.
Proof.
  intros Hf Hlfu Hhot H. unfold choose_victim, bind, load in H.
  destruct (scoring_choose_victim_preserves f cache Hf) as [Hd Hl].
  destruct (heap w addr) as [|o|o| |o|o] eqn:Eh.
  - inversion H; reflexivity.
  - exact (preserves_eq f _ _ _ _ (Hd o) H).
  - exact (preserves_eq f _ _ _ _ (Hl o) H).
  - inversion H; reflexivity.
  - exfalso. exact (Hlfu o eq_refl).
  - exfalso. exact (Hhot o eq_refl).
Qed.

(** Selection is pure for the two scoring policies, the least-recently-used
    policy and the base class: [choose_victim] only reads the clock and leaves
    every policy object, the hook log and the file system as they were. *)
Theorem choose_victim_pure addr cache w out w' :
  (forall o, heap w addr <> IsLFUEvictor o) ->
  (forall o, heap w addr <> IsHotBlockEvictor o) ->
  choose_victim addr cache w = (out, w') ->
  heap w' = heap w /\ hook_log w' = hook_log w /\ disk w' = disk w /\
  clock w' = clock w.
Proof.
  intros Hlfu Hhot H.
  split; [exact (choose_victim_nonstoring heap _ _ _ _ _ heap_time Hlfu Hhot H)|].
  split; [exact (choose_victim_nonstoring hook_log _ _ _ _ _ hook_log_time Hlfu Hhot H)|].
  split; [exact (choose_victim_nonstoring disk _ _ _ _ _ disk_time Hlfu Hhot H)|].
  exact (choose_victim_nonstoring clock _ _ _ _ _ clock_time Hlfu Hhot H).
Qed.

Lemma choose_victim_pure_witness :
  let p := state_after store_A [(0, B8); (8, B8)] test_world in
  heap (snd (choose_victim lFUDADecayFactorEvictor (Cache_cache (fst p)) (snd p)))
  = heap (snd p).
Proof.
  intros p.
  destruct (choose_victim lFUDADecayFactorEvictor (Cache_cache (fst p)) (snd p))
    as [out w'] eqn:E.
  apply (choose_victim_pure _ _ _ _ _) with (3 := E).
  - intros o; vm_compute; discriminate.
  - intros o; vm_compute; discriminate.
Defined.

Section OtherObject.
Variables (a addr : nat).
Hypothesis a_other : a <> addr.

Let at_a (w : World) : Evictor := heap w a.

Lemma at_a_time : preserves at_a time_time.
Proof. intros w; reflexivity. Qed.

Lemma at_a_store o : preserves at_a (store addr o).
Proof.
  intros w. unfold at_a, store; simpl.
  destruct (Nat.eqb a addr) eqn:E; [|reflexivity].
  apply Nat.eqb_eq in E. contradiction.
Qed.

Lemma at_a_choose_victim cache : preserves at_a (choose_victim addr cache).
Proof.
  unfold choose_victim. apply preserves_bind; [apply preserves_load|].
  intros [|o|o| |o|o].
  - apply preserves_ret.
  - apply (scoring_choose_victim_preserves at_a cache at_a_time).
  - apply (scoring_choose_victim_preserves at_a cache at_a_time).
  - unfold LRUEvictor_choose_victim. apply preserves_ret.
  - unfold LFUEvictor_choose_victim.
    frame_by ltac:(first [apply at_a_time | apply at_a_store]).
  - unfold HotBlockEvictor_choose_victim, recently_accessed.
    frame_by ltac:(first [apply at_a_time | apply at_a_store]).
Qed.

Lemma at_a_update_internal_cache cache key :
  preserves at_a (update_internal_cache addr cache key).
Proof.
  unfold update_internal_cache.
  apply preserves_bind; [intros w; reflexivity|intros _].
  apply preserves_bind; [apply preserves_load|].
  intros [|o|o| |o|o];
    unfold LFUDADecayFactorEvictor_update_internal_cache,
      LFUDAEvictor_update_internal_cache;
    frame_by ltac:(first [apply at_a_time | apply at_a_store]).
Qed.
End OtherObject.

(** A [get], whether it returns or raises, leaves every policy object other
    than the store's own evictor untouched. *)
Theorem get_touches_only_its_evictor self offset size w out w' a :
  a <> Cache_evictor self ->
  get self offset size w = (out, w') ->
  heap w' a = heap w a.
Proof.
  intros Hne H.
  refine (preserves_eq (fun w => heap w a) _ w out w' _ H).
  pose proof (at_a_time a) as Ht.
  pose proof (at_a_choose_victim a (Cache_evictor self) Hne) as Hc.
  pose proof (at_a_update_internal_cache a (Cache_evictor self) Hne) as Hu.
  assert (He : forall d key, preserves (fun w => heap w a) (evict self d key)).
  { intros d key. unfold evict. destruct (Cache_cache self) as [|kv rest].
    - apply preserves_ret.
    - apply preserves_bind; [apply Hu|intros _].
      destruct (_ <? _); [|apply preserves_ret].
      apply preserves_bind; [apply Hc|].
      intros [k|]; [|apply preserves_raise].
      destruct (dict_get _ k); [apply preserves_ret|apply preserves_raise]. }
  assert (Hi : forall key, preserves (fun w => heap w a)
                             (insert_and_respond self key offset size)).
  { intros key. unfold insert_and_respond, insert.
    apply preserves_bind; [apply preserves_read_from_file|intros ?].
    apply preserves_bind; [|intros ?; apply preserves_ret].
    apply preserves_bind; [apply He|intros ?].
    apply preserves_bind; [apply Ht|intros ?; apply preserves_ret]. }
  unfold get. destruct (dict_get _ _).
  - apply preserves_bind; [apply Ht|intros ?; apply preserves_ret].
  - destruct size; [apply Hi|].
    apply preserves_bind.
    + unfold check_and_retrieve_consecutive_blocks.
      destruct (consecutive_loop _ _ _ _); [apply preserves_ret|apply preserves_raise].
    + intros o. destruct (is_truthy o); [apply preserves_ret|apply Hi].
Qed.

Lemma get_touches_only_its_evictor_witness :
  let p := state_after store_B_private calls_B test_world_private in
  heap (snd (get (fst p) 16 B8 (snd p))) lFUDADecayFactorEvictor
  = heap (snd p) lFUDADecayFactorEvictor.
Proof.
  intros p.
  destruct (get (fst p) 16 B8 (snd p)) as [out w'] eqn:E.
  apply (get_touches_only_its_evictor (fst p) 16 B8 (snd p) out w'
           lFUDADecayFactorEvictor); [|exact E].
  vm_compute; discriminate.
Defined.

(** ** Read errors *)

Lemma insert_and_respond_read_raises self key offset size w e :
  read_from_file offset size (Cache_file_path self) w = (Raise e, w) ->
  insert_and_respond self key offset size w = (Raise e, w).
Proof.
  intros H. unfold insert_and_respond. unfold bind at 1. rewrite H. reflexivity.
Qed.

(** A miss whose read fails raises before any bookkeeping: on a missing file
    [get] raises [FileNotFoundError]; on an existing file it raises
    [ValueError] when the offset does not fit the signed 64-bit [off_t], and
    [OSError] when the offset fits but is negative or beyond the largest
    offset the file system lets [seek] reach.  In each case the policy
    objects, the hook log and the clock are exactly as before the call. *)
Theorem get_read_error self offset size w :
  dict_get (Cache_cache self) (mkCacheKey offset size) = None ->
  (size = B64 -> dict_mem (Cache_cache self) (mkCacheKey offset B8) = false) ->
  (disk w (Cache_file_path self) = None ->
   get self offset size w = (Raise FileNotFoundError, w)) /\
  (forall content,
     disk w (Cache_file_path self) = Some content ->
     offset < - 2 ^ 63 \/ 2 ^ 63 <= offset ->
     get self offset size w = (Raise ValueError, w)) /\
  (forall content,
     disk w (Cache_file_path self) = Some content ->
     - 2 ^ 63 <= offset -> offset < 2 ^ 63 ->
     offset < 0 \/ seek_limit (platform w) < offset ->
     get self offset size w = (Raise OSError, w)).
Proof.
  intros Hk Hsmall.
  assert (Hi : (disk w (Cache_file_path self) = None ->
                insert_and_respond self (mkCacheKey offset size) offset size w
                = (Raise FileNotFoundError, w)) /\
               (forall content,
                  disk w (Cache_file_path self) = Some content ->
                  offset < - 2 ^ 63 \/ 2 ^ 63 <= offset ->
                  insert_and_respond self (mkCacheKey offset size) offset size w
                  = (Raise ValueError, w)) /\
               (forall content,
                  disk w (Cache_file_path self) = Some content ->
                  - 2 ^ 63 <= offset -> offset < 2 ^ 63 ->
                  offset < 0 \/ seek_limit (platform w) < offset ->
                  insert_and_respond self (mkCacheKey offset size) offset size w
                  = (Raise OSError, w))).
  { split; [|split].
    - intros Hd. apply insert_and_respond_read_raises.
      rewrite read_from_file_run, Hd. reflexivity.
    - intros content Hd Hv. apply insert_and_respond_read_raises.
      rewrite read_from_file_run, Hd.
      assert (E : (offset <? - 2 ^ 63) || (2 ^ 63 <=? offset) = true).
      { apply orb_true_iff.
        destruct Hv as [Hv|Hv]; [left; apply Z.ltb_lt|right; apply Z.leb_le];
          exact Hv. }
      rewrite E. reflexivity.
    - intros content Hd Hlo Hhi Ho. apply insert_and_respond_read_raises.
      rewrite read_from_file_run, Hd.
      assert (E1 : (offset <? - 2 ^ 63) || (2 ^ 63 <=? offset) = false).
      { apply orb_false_iff. split; [apply Z.ltb_ge|apply Z.leb_gt]; assumption. }
      assert (E2 : (offset <? 0) || (seek_limit (platform w) <? offset) = true).
      { apply orb_true_iff.
        destruct Ho as [Ho|Ho]; [left|right]; apply Z.ltb_lt; exact Ho. }
      rewrite E1, E2. reflexivity. }
  unfold get. rewrite Hk. destruct size; [exact Hi|].
  unfold check_and_retrieve_consecutive_blocks. rewrite consecutive_loop_first.
  rewrite (Hsmall eq_refl). unfold bind at 1.
  unfold ret at 1. simpl is_truthy. cbv iota. exact Hi.
Qed.

Lemma get_read_error_witness :
  get (Cache_init "missing.bin" None None) 0 B8 test_world
    = (Raise FileNotFoundError, test_world) /\
  get (Cache_init "data.bin" None None) (- 2 ^ 63 - 1) B8 test_world
    = (Raise ValueError, test_world) /\
  get (Cache_init "data.bin" None None) (-1) B64 test_world
    = (Raise OSError, test_world) /\
  get (Cache_init "data.bin" None None) (2 ^ 63 - 1) B8 test_world
    = (Raise OSError, test_world).
Proof.
  split; [|split; [|split]].
  - apply (proj1 (get_read_error (Cache_init "missing.bin" None None) 0 B8
                    test_world eq_refl (fun _ => eq_refl))).
    reflexivity.
  - apply (proj1 (proj2 (get_read_error (Cache_init "data.bin" None None)
                           (- 2 ^ 63 - 1) B8 test_world eq_refl
                           (fun _ => eq_refl))) file_128).
    + reflexivity.
    + left. reflexivity.
  - apply (proj2 (proj2 (get_read_error (Cache_init "data.bin" None None) (-1) B64
                           test_world eq_refl (fun _ => eq_refl))) file_128).
    + reflexivity.
    + discriminate.
    + reflexivity.
    + left. reflexivity.
  - apply (proj2 (proj2 (get_read_error (Cache_init "data.bin" None None)
                           (2 ^ 63 - 1) B8 test_world eq_refl
                           (fun _ => eq_refl))) file_128).
    + reflexivity.
    + discriminate.
    + reflexivity.
    + right. reflexivity.
Defined.

(** ** The recency queues stay bounded *)

Lemma decay_at_heap addr w w' :
  heap w' = heap w -> decay_at addr w -> decay_at addr w'.
Proof. intros Hh (o & Ho & Hwf). exists o. rewrite Hh. auto. Qed.

Lemma update_internal_cache_decay_at addr cache key w :
  decay_at addr w ->
  exists w', update_internal_cache addr cache key w = (Ret tt, w') /\
             decay_at addr w'.
Proof.
  intros (o & Ho & Hwf).
  unfold update_internal_cache, log_hook, load.
  unfold bind at 1. unfold bind at 1. cbn [heap]. rewrite Ho.
  match goal with |- context [LFUDADecayFactorEvictor_update_internal_cache _ _ _ _ ?w0] =>
    destruct (decay_update_spec addr o cache key w0 Hwf)
      as (w' & o' & Hu & Hh & Hwf' & _)
  end.
  exists w'. split; [exact Hu|]. exists o'; auto.
Qed.

Lemma evict_decay_at self d key w out w' :
  decay_at (Cache_evictor self) w ->
  evict self d key w = (out, w') ->
  decay_at (Cache_evictor self) w'.
Proof.
  intros Hd. unfold evict. destruct (Cache_cache self) as [|kv rest] eqn:Ec.
  - intros H; inversion H; subst; assumption.
  - rewrite <- Ec.
    destruct (update_internal_cache_decay_at (Cache_evictor self)
                (Cache_cache self) key w Hd) as (w1 & Hu & Hd1).
    unfold bind at 1. rewrite Hu.
    destruct (Cache_max_size self <? Cache_size self + len d);
      [|intros H; inversion H; subst; assumption].
    unfold bind.
    destruct (choose_victim (Cache_evictor self) (Cache_cache self) w1)
      as [o2 w2] eqn:Ecv.
    assert (Hh : heap w2 = heap w1).
    { destruct Hd1 as (o & Ho & _).
      apply (choose_victim_nonstoring heap _ _ _ _ _ heap_time) with (3 := Ecv);
        intros o0; rewrite Ho; discriminate. }
    pose proof (decay_at_heap _ _ _ Hh Hd1) as Hd2.
    destruct o2 as [[k|]|e].
    + destruct (dict_get (Cache_cache self) k);
        intros H; inversion H; subst; assumption.
    + intros H; inversion H; subst; assumption.
    + intros H; inversion H; subst; assumption.
Qed.

Lemma get_decay_at self offset size w out w' :
  decay_at (Cache_evictor self) w ->
  get self offset size w = (out, w') ->
  decay_at (Cache_evictor self) w'.
Proof.
  intros Hd.
  assert (Hi : forall key out w',
             insert_and_respond self key offset size w = (out, w') ->
             decay_at (Cache_evictor self) w').
  { intros key out2 w2. unfold insert_and_respond. unfold bind at 1.
    destruct (read_from_file offset size (Cache_file_path self) w)
      as [[d|e] w1] eqn:Er;
      pose proof (preserves_eq heap _ _ _ _
                    (preserves_read_from_file heap offset size _) Er) as Hh1;
      pose proof (decay_at_heap _ _ _ Hh1 Hd) as Hd1.
    - unfold insert. unfold bind at 1. unfold bind at 1.
      destruct (evict self d key w1) as [[self1|e] w3] eqn:Ee;
        pose proof (evict_decay_at _ _ _ _ _ _ Hd1 Ee) as Hd3.
      + unfold bind, time_time, ret. intros H; inversion H; subst.
        destruct Hd3 as (o & Ho & Hwf). exists o; auto.
      + intros H; inversion H; subst; assumption.
    - intros H; inversion H; subst; assumption. }
  unfold get. destruct (dict_get _ _).
  - unfold bind, time_time, ret. intros H; inversion H; subst.
    destruct Hd as (o & Ho & Hwf). exists o; auto.
  - destruct size; [apply Hi|].
    unfold check_and_retrieve_consecutive_blocks. rewrite consecutive_loop_first.
    destruct (dict_mem _ _).
    + intros H; inversion H; subst; assumption.
    + unfold bind at 1. unfold ret at 1. simpl is_truthy. cbv iota. apply Hi.
Qed.

(** However many reads a store serves, the decayed-recency policy behind it
    keeps at most 10 access times per key: the bound set in [__init__] holds
    after every call of a sequence of [get] calls. *)
Theorem recency_queues_stay_bounded file_path max_size addr calls w trace :
  decay_at addr w ->
  run_gets (Cache_init file_path max_size (Some addr)) calls w = Some trace ->
  Forall (fun x =>
            exists o, heap (snd x) addr = IsLFUDADecayFactorEvictor o /\
                      forall k q, In (k, q) (recent_accesses o) ->
                                  (List.length (dq_items q) <= 10)%nat)
         trace.
Proof.
  assert (G : forall calls self w trace,
             decay_at (Cache_evictor self) w ->
             run_gets self calls w = Some trace ->
             Forall (fun x => decay_at (Cache_evictor self) (snd x)) trace).
  { clear. induction calls as [|[offset size] calls IH]; simpl;
      intros self w trace Hd H.
    - inversion H; constructor.
    - destruct (get self offset size w) as [[[r self']|e] w'] eqn:Eg;
        [|discriminate].
      destruct (run_gets self' calls w') as [rest|] eqn:Er; [|discriminate].
      inversion H; subst; clear H.
      pose proof (get_decay_at _ _ _ _ _ _ Hd Eg) as Hd'.
      destruct (get_keeps_bound_policy_path _ _ _ _ _ _ _ Eg) as (_ & He & _).
      constructor; [exact Hd'|].
      rewrite <- He. apply (IH self' w' rest); [rewrite He|]; assumption. }
  intros Hd H.
  apply (G calls (Cache_init file_path max_size (Some addr)) w trace) in H;
    [|exact Hd].
  eapply Forall_impl; [|exact H].
  intros x (o & Ho & _ & Hq). exists o. split; [exact Ho|].
  intros k q Hin. apply (Hq k q Hin).
Qed.

Lemma recency_queues_stay_bounded_witness :
  exists trace,
    run_gets (Cache_init "data.bin" None (Some lFUDADecayFactorEvictor))
             [(0, B8); (8, B8); (16, B8); (8, B8)] test_world = Some trace /\
    Forall (fun x =>
              exists o, heap (snd x) lFUDADecayFactorEvictor
                        = IsLFUDADecayFactorEvictor o /\
                        forall k q, In (k, q) (recent_accesses o) ->
                                    (List.length (dq_items q) <= 10)%nat)
           trace.
Proof.
  destruct (defined_ex
              (run_gets (Cache_init "data.bin" None (Some lFUDADecayFactorEvictor))
                 [(0, B8); (8, B8); (16, B8); (8, B8)] test_world))
    as [trace E]; [vm_compute; reflexivity|].
  exists trace; split; [exact E|].
  apply (recency_queues_stay_bounded "data.bin" None lFUDADecayFactorEvictor
           [(0, B8); (8, B8); (16, B8); (8, B8)] test_world).
  - exists (LFUDADecayFactorEvictor_init (1 # 2)). split; [reflexivity|].
    split; [reflexivity|]. intros k q [].
  - exact E.
Defined.
